(** * PowerForecasta: block dispatch of [power_forecasting.py]

    A shallow embedding of the dispatch pipeline of [power_forecasting.py]:
    demand adjustment (open access, bank), must-run allocation, the linear
    program over the available generators, the grid residual, the per-block
    driver [process_block] and the fan-out of [run_normal].

    Conventions of the embedding.
    - Python floats are exact rationals ([Q]); equality of quantities is
      [Qeq] ([==]).  Rounding is outside the model.
    - A pandas DataFrame with a [Date] column is a list of column labels and
      a list of rows; a row carries its date and its cells.  A column label
      is an integer or a string, as read from a spreadsheet header.
    - Python exceptions are values of [Exn]; a function that may raise and
      that writes to the log returns in the monad [M].
    - The log keeps the [logger.error] calls and the calls of [prob.solve];
      [logger.info] calls carry no information of their own and are left out.
    - The external LP solver behind [prob.solve()] is a parameter.
    - The tables are taken as loaded: reading the spreadsheets and the
      checks on them ([validate_file_exists], [validate_generator_data]),
      the output file and the date picker are outside the model.  Of
      [preload_generator_data] the model has the loop over the directory
      listing, with the listing and [pd.read_excel] as parameters. *)

From Stdlib Require Import QArith Lqa.
From stdpp Require Import base decidable option list strings gmap pretty sorting.

Local Open Scope Q_scope.

(** ** Constants *)

Definition DEMAND_CONVERSION_FACTOR : Q := 1000 * (1 # 4).
Definition MUST_RUN_TYPE : string := "Must run".
Definition AVAILABLE_TYPE : string := "Available".
Definition NUM_WORKERS : nat := 8.

(** ** Tables *)

Definition Date := Z.

Inductive Label :=
  | LInt (z : Z)
  | LStr (s : string).

#[global] Instance Label_eq_dec : EqDecision Label.
Proof. solve_decision. Defined.

(** [str(block)] *)
Definition str (block : Z) : string := pretty block.

Record Row := { row_date : Date; cell : Label -> Q }.

Record DataFrame := { columns : list Label; rows : list Row }.

(** [df[df['Date'] == date]] *)
Definition filter_date (date : Date) (df : DataFrame) : list Row :=
  filter (fun r => row_date r = date) (rows df).

(** [c in row.columns] *)
Definition has_column (c : Label) (df : DataFrame) : bool :=
  bool_decide (c ∈ columns df).

(** [block if block in row.columns else str(block)] *)
Definition block_column (block : Z) (df : DataFrame) : Label :=
  if has_column (LInt block) df then LInt block else LStr (str block).

(** ** Demand adjustment *)

Definition adjust_demand_with_open_access
    (date : Date) (block : Z) (demand_mw : Q) (df_oa : DataFrame) : Q * Q :=
  match filter_date date df_oa with
  | [] => (demand_mw * DEMAND_CONVERSION_FACTOR, 0)
  | row :: _ =>
      let block_column := block_column block df_oa in
      if negb (has_column block_column df_oa)
      then (demand_mw * DEMAND_CONVERSION_FACTOR, 0)
      else
        let oa_value_mw := cell row block_column in
        let adjusted_demand_mw := demand_mw - oa_value_mw in
        let adjusted_demand_kwh := adjusted_demand_mw * DEMAND_CONVERSION_FACTOR in
        (adjusted_demand_kwh, oa_value_mw)
  end.

Definition adjust_demand_with_bank
    (date : Date) (block : Z) (demand_kwh : Q) (df_bank : DataFrame) : Q * Q :=
  match filter_date date df_bank with
  | [] => (demand_kwh, 0)
  | row :: _ =>
      let block_column := block_column block df_bank in
      if negb (has_column block_column df_bank)
      then (demand_kwh, 0)
      else
        let bank_value_mw := cell row block_column in
        let bank_value_kwh := bank_value_mw * DEMAND_CONVERSION_FACTOR in
        let adjusted_demand := demand_kwh + bank_value_kwh in
        (adjusted_demand, bank_value_mw)
  end.

(** The two adjustments in the order [process_block] applies them: the net
    demand in kWh that goes into the optimisation. *)
Definition net_demand (df_oa df_bank : DataFrame)
    (date : Date) (block : Z) (demand : Q) : Q :=
  (adjust_demand_with_bank date block
     (adjust_demand_with_open_access date block demand df_oa).1 df_bank).1.

(** A table read as a map from (date, block) to a value: the cell of the
    first row of that date under the block's column, the block being stored
    as an integer or as its string form. *)
Definition lookup_entry (date : Date) (block : Z) (df : DataFrame) : option Q :=
  match filter_date date df with
  | [] => None
  | row :: _ =>
      if has_column (LInt block) df then Some (cell row (LInt block))
      else if has_column (LStr (str block)) df then Some (cell row (LStr (str block)))
      else None
  end.

(** Python's [sum]: a left fold from 0. *)
Definition sum_Q (l : list Q) : Q := foldl Qplus 0 l.

(** ** Exceptions, log and monad *)

Inductive Exn :=
  | KeyError
  | IndexError
  | ValueError
  | TypeError
  | UnboundLocalError
  | PulpSolverError.

#[global] Instance Exn_eq_dec : EqDecision Exn.
Proof. solve_decision. Defined.

(** ** Linear programs, as [pulp] holds them *)

(** [pulp.LpVariable(name, lowBound, upBound)]; the variable's name is its
    key in [gen_power_vars]. *)
Record LpVariable := { lowBound : Q; upBound : Q }.

(** A sum of variables ([pulp.lpSum]) is the list of its variables' names,
    each with coefficient 1; a name that occurs twice counts twice. *)
Abbreviation LpAffineExpression := (list string).

(** [pulp.LpProblem(_, pulp.LpMaximize)]: the objective to maximise and the
    constraints [e <= rhs]. *)
Record LpProblem := {
  objective : LpAffineExpression;
  constraints : list (LpAffineExpression * Q)
}.

Inductive LpStatus :=
  | LpStatusNotSolved
  | LpStatusOptimal
  | LpStatusInfeasible
  | LpStatusUnbounded
  | LpStatusUndefined.

#[global] Instance LpStatus_eq_dec : EqDecision LpStatus.
Proof. solve_decision. Defined.

(** What a solver hands back: the status and the value of each variable
    ([varValue]); [None] when the solver call raises. *)
Definition Solver :=
  LpProblem -> gmap string LpVariable -> option (LpStatus * gmap string Q).

(** The contract of an LP solver: a solution it reports as optimal gives
    every variable of the program a value within its bounds and satisfies
    every constraint. *)
Definition problem_variables (prob : LpProblem) : list string :=
  objective prob ++ concat (fst <$> constraints prob).

Definition value_of (sol : gmap string Q) (x : string) : Q := default 0 (sol !! x).

Definition feasible (prob : LpProblem) (vars : gmap string LpVariable)
    (sol : gmap string Q) : Prop :=
  (forall x, x ∈ problem_variables prob ->
     exists var v, vars !! x = Some var /\ sol !! x = Some v /\
                   lowBound var <= v /\ v <= upBound var) /\
  (forall lhs rhs, (lhs, rhs) ∈ constraints prob ->
     sum_Q (value_of sol <$> lhs) <= rhs).

Definition sound (solver : Solver) : Prop :=
  forall prob vars sol,
    solver prob vars = Some (LpStatusOptimal, sol) -> feasible prob vars sol.

Inductive ErrorMsg :=
  | InvalidRemainingDemand (remaining_demand : Q)
  | ErrorLoadingGridCost (e : Exn)
  | NoFeasibleSolution
  | ErrorProcessingBlock (block : Z) (date : Date) (e : Exn).

Inductive Event :=
  | LogError (m : ErrorMsg)
  | Solve (prob : LpProblem) (vars : gmap string LpVariable).

(** The log line of a block that fails on a missing grid rate. *)
Definition is_grid_rate_error (ev : Event) : Prop :=
  exists e, ev = LogError (ErrorLoadingGridCost e).

Definition M (A : Type) : Type := list Event * (Exn + A).

#[global] Instance M_ret : MRet M := fun A a => ([], inr a).

#[global] Instance M_bind : MBind M := fun A B f m =>
  match m with
  | (l, inl e) => (l, inl e)
  | (l, inr a) => let '(l', r) := f a in (l ++ l', r)
  end.

Definition raise {A} (e : Exn) : M A := ([], inl e).
Definition log (ev : Event) : M unit := ([ev], inr tt).

(** [try: m except Exception as e: h e] *)
Definition try_except {A} (m : M A) (h : Exn -> M A) : M A :=
  match m with
  | (l, inl e) => let '(l', r) := h e in (l ++ l', r)
  | (l, inr a) => (l, inr a)
  end.

Definition events {A} (m : M A) : list Event := m.1.
Definition outcome {A} (m : M A) : Exn + A := m.2.

(** ** Generators and block results *)

Record Generator := {
  Code : string;
  name : string;
  Type_of_Plant : string;
  variable_cost : Q
}.

(** One line of a detail column, [code | energy kWh | cost INR], kept as a
    record; a column is the list of its lines. *)
Record Detail := { detail_code : string; detail_kwh : Q; detail_inr : Q }.

(** The dictionary [optimize_power_for_demand] returns. *)
Record BlockResult := {
  r_Date : Date;
  r_Block : Z;
  r_Demand : Q;
  r_Total_Demand_Met : Q;
  r_Must_Run_Generators_Used : Q;
  r_Available_Generators_Used : Q;
  r_Grid_Consumption : Q;
  r_Total_Cost : Q;
  r_Grid_Rate : Q;
  r_OA_Used : option Q;
  r_Bank_Adjustment : option Q;
  r_Must_Run_Generator_Details : list Detail;
  r_Available_Generator_Details : list Detail
}.

Definition set_OA_Used (v : Q) (r : BlockResult) : BlockResult :=
  {| r_Date := r_Date r; r_Block := r_Block r; r_Demand := r_Demand r;
     r_Total_Demand_Met := r_Total_Demand_Met r;
     r_Must_Run_Generators_Used := r_Must_Run_Generators_Used r;
     r_Available_Generators_Used := r_Available_Generators_Used r;
     r_Grid_Consumption := r_Grid_Consumption r;
     r_Total_Cost := r_Total_Cost r; r_Grid_Rate := r_Grid_Rate r;
     r_OA_Used := Some v; r_Bank_Adjustment := r_Bank_Adjustment r;
     r_Must_Run_Generator_Details := r_Must_Run_Generator_Details r;
     r_Available_Generator_Details := r_Available_Generator_Details r |}.

Definition set_Bank_Adjustment (v : Q) (r : BlockResult) : BlockResult :=
  {| r_Date := r_Date r; r_Block := r_Block r; r_Demand := r_Demand r;
     r_Total_Demand_Met := r_Total_Demand_Met r;
     r_Must_Run_Generators_Used := r_Must_Run_Generators_Used r;
     r_Available_Generators_Used := r_Available_Generators_Used r;
     r_Grid_Consumption := r_Grid_Consumption r;
     r_Total_Cost := r_Total_Cost r; r_Grid_Rate := r_Grid_Rate r;
     r_OA_Used := r_OA_Used r; r_Bank_Adjustment := Some v;
     r_Must_Run_Generator_Details := r_Must_Run_Generator_Details r;
     r_Available_Generator_Details := r_Available_Generator_Details r |}.

(** [x < y] and [x > y] on floats, as booleans. *)
Definition Qltb (x y : Q) : bool := negb (Qle_bool y x).

(** ** The pipeline over the preloaded tables *)

Section Dispatch.

(** The module-level tables ([preloaded_generators], [df_grid_cost],
    [df_oa], [df_bank]) and the solver behind [prob.solve()]. *)
Variable preloaded_generators : gmap string DataFrame.
Variables df_grid_cost df_oa df_bank : DataFrame.
Variable solver : Solver.

Definition load_grid_cost (date : Date) (block : Z) (df_grid_cost : DataFrame) : M Q :=
  match filter_date date df_grid_cost with
  | [] => raise ValueError
  | row :: _ =>
      let block_column := block_column block df_grid_cost in
      if negb (has_column block_column df_grid_cost)
      then raise ValueError
      else mret (cell row block_column)
  end.

(** [pulp.LpVariable(g["name"], lowBound=0, upBound=0)] for every row of the
    generator table passed in. *)
Definition setup_optimization_problem (available_generators : list Generator)
    : LpProblem * gmap string LpVariable :=
  let prob := {| objective := []; constraints := [] |} in
  let gen_power_vars :=
    foldl (fun vars g => <[name g := {| lowBound := 0; upBound := 0 |}]> vars)
          ∅ available_generators in
  (prob, gen_power_vars).

(** [generator_data.loc[generator_data['Date'] == date, block].values[0]]:
    [KeyError] when the block is no column, [IndexError] when no row has the
    date. *)
Definition loc_date_block (generator_data : DataFrame) (date : Date) (block : Z) : M Q :=
  if has_column (LInt block) generator_data then
    match filter_date date generator_data with
    | [] => raise IndexError
    | row :: _ => mret (cell row (LInt block))
    end
  else raise KeyError.

(** The upper bound of a generator's decision variable: its availability
    for (date, block) in kWh, and 0 when it has no series. *)
Definition energy_bound (date : Date) (block : Z) (g : Generator) : Q :=
  match preloaded_generators !! Code g with
  | Some generator_data =>
      match outcome (loc_date_block generator_data date block) with
      | inr power_mw => power_mw * DEMAND_CONVERSION_FACTOR
      | inl _ => 0
      end
  | None => 0
  end.

(** A series without a data point for (date, block): the block is no
    column of it, or no row of it has the date. *)
Definition no_data_point (data : DataFrame) (date : Date) (block : Z) : Prop :=
  has_column (LInt block) data = false \/ filter_date date data = [].

Fixpoint must_run_loop (gs : list Generator) (date : Date) (block : Z)
    (must_run_power must_run_cost : Q) (must_run_details : list Detail)
    : M (Q * Q * list Detail) :=
  match gs with
  | [] => mret (must_run_power, must_run_cost, must_run_details)
  | g :: gs' =>
      let generator_code := Code g in
      match preloaded_generators !! generator_code with
      | Some generator_data =>
          power_mw ← loc_date_block generator_data date block;
          let power_kwh := power_mw * DEMAND_CONVERSION_FACTOR in
          must_run_loop gs' date block
            (must_run_power + power_kwh)
            (must_run_cost + power_kwh * variable_cost g)
            (must_run_details ++
               [{| detail_code := generator_code; detail_kwh := power_kwh;
                   detail_inr := power_kwh * variable_cost g |}])
      | None =>
          must_run_loop gs' date block must_run_power must_run_cost must_run_details
      end
  end.

Definition calculate_must_run_power (generators : list Generator) (date : Date) (block : Z)
    : M (Q * Q * list Detail) :=
  must_run_loop (filter (fun g => Type_of_Plant g = MUST_RUN_TYPE) generators)
    date block 0 0 [].

(** [gen_power_vars[key]]: [KeyError] on a missing key. *)
Definition getitem {V} (d : gmap string V) (key : string) : M V :=
  match d !! key with
  | Some v => mret v
  | None => raise KeyError
  end.

Fixpoint set_upBounds (gs : list Generator) (date : Date) (block : Z)
    (gen_power_vars : gmap string LpVariable) : M (gmap string LpVariable) :=
  match gs with
  | [] => mret gen_power_vars
  | g :: gs' =>
      match preloaded_generators !! Code g with
      | Some generator_data =>
          power_mw ← loc_date_block generator_data date block;
          let power_kwh := power_mw * DEMAND_CONVERSION_FACTOR in
          v ← getitem gen_power_vars (name g);
          set_upBounds gs' date block
            (<[name g := {| lowBound := lowBound v; upBound := power_kwh |}]> gen_power_vars)
      | None => set_upBounds gs' date block gen_power_vars
      end
  end.

(** [pulp.lpSum(gen_power_vars[g['name']] for _, g in gs)] *)
Fixpoint lpSum (gen_power_vars : gmap string LpVariable) (gs : list Generator)
    : M LpAffineExpression :=
  match gs with
  | [] => mret []
  | g :: gs' =>
      _ ← getitem gen_power_vars (name g);
      e ← lpSum gen_power_vars gs';
      mret (name g :: e)
  end.

(** [gen_power_vars[g["name"]].varValue] after the solve; a variable the
    solver gave no value has [varValue = None], and arithmetic on it raises
    [TypeError]. *)
Fixpoint varValues (sol : gmap string Q) (gs : list Generator) : M (list Q) :=
  match gs with
  | [] => mret []
  | g :: gs' =>
      match sol !! name g with
      | Some v => vs ← varValues sol gs'; mret (v :: vs)
      | None => raise TypeError
      end
  end.

Definition optimize_available_generators
    (remaining_demand : Q) (date : Date) (block : Z) (generators : list Generator)
    (prob : LpProblem) (gen_power_vars : gmap string LpVariable)
    : M (Q * Q * list Detail) :=
  let available_generators :=
    filter (fun g => Type_of_Plant g = AVAILABLE_TYPE) generators in
  gen_power_vars ← set_upBounds available_generators date block gen_power_vars;
  obj ← lpSum gen_power_vars available_generators;
  lhs ← lpSum gen_power_vars available_generators;
  let prob := {| objective := obj;
                 constraints := constraints prob ++ [(lhs, remaining_demand)] |} in
  _ ← log (Solve prob gen_power_vars);
  match solver prob gen_power_vars with
  | None => raise PulpSolverError
  | Some (status, sol) =>
      if decide (status = LpStatusOptimal) then
        vs ← varValues sol available_generators;
        let available_gen_demand_met := sum_Q vs in
        let available_gen_cost :=
          sum_Q (zip_with (fun v g => v * variable_cost g) vs available_generators) in
        let available_gen_details :=
          zip_with (fun v g => {| detail_code := Code g; detail_kwh := v;
                                  detail_inr := v * variable_cost g |})
                   vs available_generators in
        mret (available_gen_demand_met, available_gen_cost, available_gen_details)
      else
        _ ← log (LogError NoFeasibleSolution);
        mret (0, 0, [])
  end.

Definition optimize_power_for_demand
    (demand_kwh : Q) (date : Date) (block : Z) (generators : list Generator)
    (prob : LpProblem) (gen_power_vars : gmap string LpVariable)
    : M (option BlockResult) :=
  '(must_run_power, must_run_cost, must_run_details) ←
    calculate_must_run_power generators date block;
  let remaining_demand := demand_kwh - must_run_power in
  if Qltb remaining_demand 0 then
    _ ← log (LogError (InvalidRemainingDemand remaining_demand));
    mret (@None BlockResult)
  else
    grid ← try_except
             (grid_cost ← load_grid_cost date block df_grid_cost;
              mret (Some grid_cost))
             (fun e => _ ← log (LogError (ErrorLoadingGridCost e));
                       mret (@None Q));
    match grid with
    | None => mret None
    | Some grid_cost =>
        let total_cost := must_run_cost in
        let exchange_quantity := 0 in
        let available_gen_demand_met := 0 in
        if Qltb 0 remaining_demand then
          '(available_gen_demand_met, available_gen_cost, available_gen_details) ←
            optimize_available_generators remaining_demand date block generators
              prob gen_power_vars;
          let total_cost := total_cost + available_gen_cost in
          let '(exchange_quantity, total_cost) :=
            if Qltb available_gen_demand_met remaining_demand then
              let exchange_quantity := remaining_demand - available_gen_demand_met in
              (exchange_quantity, total_cost + exchange_quantity * grid_cost)
            else (exchange_quantity, total_cost) in
          mret (Some {|
            r_Date := date; r_Block := block; r_Demand := demand_kwh;
            r_Total_Demand_Met := demand_kwh;
            r_Must_Run_Generators_Used := must_run_power;
            r_Available_Generators_Used := available_gen_demand_met;
            r_Grid_Consumption := exchange_quantity;
            r_Total_Cost := total_cost; r_Grid_Rate := grid_cost;
            r_OA_Used := None; r_Bank_Adjustment := None;
            r_Must_Run_Generator_Details := must_run_details;
            r_Available_Generator_Details := available_gen_details |})
        else
          (* [available_gen_details] was never assigned on this path: the
             [return] statement's read of it raises. *)
          raise UnboundLocalError
    end.

(** The [except Exception] clause of [process_block]. *)
Definition handler (block : Z) (date : Date) (e : Exn) : M (option BlockResult) :=
  _ ← log (LogError (ErrorProcessingBlock block date e)); mret None.

Definition process_block (demand : Q) (date : Date) (block : Z)
    (df_generators : list Generator) : M (option BlockResult) :=
  try_except
    (let '(demand_after_oa, oa_value_mw) :=
       adjust_demand_with_open_access date block demand df_oa in
     let '(demand_after_bank, bank_value_mw) :=
       adjust_demand_with_bank date block demand_after_oa df_bank in
     let '(prob, gen_power_vars) := setup_optimization_problem df_generators in
     result ← optimize_power_for_demand demand_after_bank date block df_generators
                prob gen_power_vars;
     match result with
     | None => raise TypeError  (* item assignment on [None] *)
     | Some result =>
         mret (Some (set_Bank_Adjustment bank_value_mw (set_OA_Used oa_value_mw result)))
     end)
    (handler block date).

End Dispatch.

(** ** The report of [run_normal] *)

(** [range(start, stop)] *)
Definition range (start stop : Z) : list Z :=
  (fun i => (start + Z.of_nat i)%Z) <$> seq 0 (Z.to_nat (stop - start)).

(** A row of the frame written to the output file, in its column order. *)
Record ReportRow := {
  c_Date : Date;
  c_Block : Z;
  c_Demand : Q;
  c_OA_Used : Q;
  c_Bank_Adjustment : Q;
  c_Net_Demand : Q;
  c_Must_Run_Generators_Used : Q;
  c_Must_Run_Generator_Details : list Detail;
  c_Available_Generators_Used : Q;
  c_Available_Generator_Details : list Detail;
  c_Grid_Consumption : Q;
  c_Grid_Rate : Q;
  c_Total_Cost : Q
}.

(** The derived column and the column selection, row by row; arithmetic on a
    [None] cell raises [TypeError]. *)
Definition report_row (r : BlockResult) : Exn + ReportRow :=
  match r_OA_Used r, r_Bank_Adjustment r with
  | Some oa, Some bank =>
      inr {| c_Date := r_Date r; c_Block := r_Block r; c_Demand := r_Demand r;
             c_OA_Used := oa; c_Bank_Adjustment := bank;
             c_Net_Demand := r_Demand r - oa * DEMAND_CONVERSION_FACTOR
                             + bank * DEMAND_CONVERSION_FACTOR;
             c_Must_Run_Generators_Used := r_Must_Run_Generators_Used r;
             c_Must_Run_Generator_Details := r_Must_Run_Generator_Details r;
             c_Available_Generators_Used := r_Available_Generators_Used r;
             c_Available_Generator_Details := r_Available_Generator_Details r;
             c_Grid_Consumption := r_Grid_Consumption r;
             c_Grid_Rate := r_Grid_Rate r;
             c_Total_Cost := r_Total_Cost r |}
  | _, _ => inl TypeError
  end.

Fixpoint report_rows (results : list BlockResult) : Exn + list ReportRow :=
  match results with
  | [] => inr []
  | r :: rs =>
      match report_row r, report_rows rs with
      | inr x, inr xs => inr (x :: xs)
      | inl e, _ => inl e
      | _, inl e => inl e
      end
  end.

Section Scheduler.

Variable preloaded_generators : gmap string DataFrame.
Variables df_grid_cost df_oa df_bank : DataFrame.
Variable solver : Solver.
Variable df_demand : DataFrame.
Variable df_generators : list Generator.

(** The arguments of the [executor.submit] calls, in submission order.
    [row[block]] is the lookup of the integer [block] among the labels of
    the row, which are the columns of the table; for a block that is no
    such label the lookup raises [KeyError].  A pandas that reads an
    integer key that is no label by position is outside the model. *)
Fixpoint submissions_of_row (date : Date) (row : Row) (blocks : list Z)
    : Exn + list (Q * Date * Z) :=
  match blocks with
  | [] => inr []
  | block :: blocks' =>
      if has_column (LInt block) df_demand then
        match submissions_of_row date row blocks' with
        | inr js => inr ((cell row (LInt block), date, block) :: js)
        | inl e => inl e
        end
      else inl KeyError
  end.

Fixpoint submissions (df_filtered : list Row) (start_block end_block : Z)
    : Exn + list (Q * Date * Z) :=
  match df_filtered with
  | [] => inr []
  | row :: rest =>
      match submissions_of_row (row_date row) row (range start_block (end_block + 1)) with
      | inl e => inl e
      | inr js =>
          match submissions rest start_block end_block with
          | inl e => inl e
          | inr js' => inr (js ++ js')
          end
      end
  end.

(** [future.result()] of one submitted call. *)
Definition future_result (job : Q * Date * Z) : Exn + option BlockResult :=
  let '(demand_mw, date, block) := job in
  outcome (process_block preloaded_generators df_grid_cost df_oa df_bank solver
             demand_mw date block df_generators).

(** The result that the future of submission index [i] contributes to
    [results], if any. *)
Definition completed_result (futures : list (Q * Date * Z)) (i : nat)
    : option BlockResult :=
  job ← futures !! i;
  match future_result job with
  | inr (Some r) => Some r
  | _ => None
  end.

(** The loop over [as_completed(futures)]: [completed] lists the futures by
    their submission index in the order in which they complete. *)
Fixpoint collect (futures : list (Q * Date * Z)) (completed : list nat)
    : Exn + list BlockResult :=
  match completed with
  | [] => inr []
  | i :: rest =>
      match futures !! i with
      | None => collect futures rest
      | Some job =>
          match future_result job with
          | inl e => inl e
          | inr result =>
              match collect futures rest with
              | inl e => inl e
              | inr results =>
                  inr (match result with Some r => r :: results | None => results end)
              end
          end
      end
  end.

Definition run_normal (start_date end_date : Date) (start_block end_block : Z)
    (completed : list nat) : Exn + list ReportRow :=
  let df_filtered :=
    filter (fun r => (start_date <= row_date r)%Z /\ (row_date r <= end_date)%Z)
           (rows df_demand) in
  match submissions df_filtered start_block end_block with
  | inl e => inl e
  | inr futures =>
      match collect futures completed with
      | inl e => inl e
      | inr [] => inl KeyError   (* an empty frame has no 'Demand' column *)
      | inr results => report_rows results
      end
  end.

End Scheduler.

(** ** A reference solver

    The linear programs of [optimize_available_generators] have one
    constraint, whose left-hand side is the objective: maximise a sum of
    variables that must not exceed [rhs].  When every variable has bounds
    [lowBound <= 0 <= upBound], scaling all upper bounds by one factor
    [t <= 1] until the sum fits is an optimal solution: the sum it reaches
    is the smaller of [rhs] and the sum of the upper bounds.  The reference
    solver answers programs of this shape and reports no optimum for any
    other.  It is one solver that keeps the contract [sound], and the
    sample runs hand it programs of this shape only; on a program with a
    variable whose bounds exclude 0 it stands for no solver in
    particular. *)

Definition bounds_admit_zero (vars : gmap string LpVariable) (x : string) : bool :=
  match vars !! x with
  | Some v => Qle_bool (lowBound v) 0 && Qle_bool 0 (upBound v)
  | None => false
  end.

Definition bounds_empty (vars : gmap string LpVariable) (x : string) : bool :=
  match vars !! x with
  | Some v => Qltb (upBound v) (lowBound v)
  | None => false
  end.

Definition upBound_of (vars : gmap string LpVariable) (x : string) : Q :=
  match vars !! x with Some v => upBound v | None => 0 end.

Definition scale (total rhs : Q) : Q :=
  if Qle_bool total rhs then 1 else rhs / total.

Definition proportional_fill (vars : gmap string LpVariable) (lhs : list string)
    (rhs : Q) : gmap string Q :=
  let t := scale (sum_Q (upBound_of vars <$> lhs)) rhs in
  (fun v => t * upBound v) <$> filter (fun kv => kv.1 ∈ lhs) vars.

Definition reference_solver : Solver := fun prob vars =>
  match constraints prob with
  | [(lhs, rhs)] =>
      if bool_decide (lhs = objective prob) then
        if forallb (bounds_admit_zero vars) lhs then
          if Qle_bool 0 rhs
          then Some (LpStatusOptimal, proportional_fill vars lhs rhs)
          else Some (LpStatusInfeasible, ∅)
        else if existsb (bounds_empty vars) lhs
        then Some (LpStatusInfeasible, ∅)
        else Some (LpStatusUndefined, ∅)
      else Some (LpStatusUndefined, ∅)
  | _ => Some (LpStatusUndefined, ∅)
  end.

(** ** Order of the report *)



(** ** Sample data *)

Module Example1.

Definition D : Date := 45000%Z.

Definition series (v : Q) : DataFrame :=
  {| columns := [LInt 1; LInt 2];
     rows := [{| row_date := D; cell := fun _ => v |}] |}.

Definition A : Generator :=
  {| Code := "A"; name := "Gen A"; Type_of_Plant := MUST_RUN_TYPE; variable_cost := 2 |}.
Definition B : Generator :=
  {| Code := "B"; name := "Gen B"; Type_of_Plant := AVAILABLE_TYPE; variable_cost := 3 |}.

(** The end-to-end example: availability 0.1 for [A] and 0.2 for [B]. *)
Definition preloaded : gmap string DataFrame :=
  <["A" := series (1 # 10)]> (<["B" := series (2 # 10)]> ∅).

Definition empty_table : DataFrame := {| columns := []; rows := [] |}.

(** Rates under string headers, as a spreadsheet may have them. *)
Definition grid : DataFrame :=
  {| columns := [LStr "1"; LStr "2"];
     rows := [{| row_date := D; cell := fun _ => 5 |}] |}.

Definition no_result : BlockResult :=
  {| r_Date := 0%Z; r_Block := 0%Z; r_Demand := 0; r_Total_Demand_Met := 0;
     r_Must_Run_Generators_Used := 0; r_Available_Generators_Used := 0;
     r_Grid_Consumption := 0; r_Total_Cost := 0; r_Grid_Rate := 0;
     r_OA_Used := None; r_Bank_Adjustment := None;
     r_Must_Run_Generator_Details := []; r_Available_Generator_Details := [] |}.

Definition the_result (m : M (option BlockResult)) : BlockResult :=
  match outcome m with
  | inr (Some r) => r
  | _ => no_result
  end.

Definition run : M (option BlockResult) :=
  process_block preloaded grid empty_table empty_table reference_solver 100 D 1 [A; B].

Definition result : BlockResult := Eval vm_compute in the_result run.

(** A table with the value [v] under every block of day [D]. *)
Definition table (v : Q) : DataFrame :=
  {| columns := [LInt 1; LInt 2];
     rows := [{| row_date := D; cell := fun _ => v |}] |}.

(** A must-run generator that has no series. *)
Definition C : Generator :=
  {| Code := "C"; name := "Gen C"; Type_of_Plant := MUST_RUN_TYPE; variable_cost := 2 |}.

Definition run_no_series : M (option BlockResult) :=
  process_block preloaded grid empty_table empty_table reference_solver 100 D 1 [C; B].

Definition result_no_series : BlockResult := Eval vm_compute in the_result run_no_series.

(** Availability of 2 for [B]: more than a demand of 1 asks for. *)
Definition preloaded_ample : gmap string DataFrame :=
  <["A" := series (1 # 10)]> (<["B" := series 2]> ∅).

Definition run_no_rate : M (option BlockResult) :=
  process_block preloaded_ample empty_table empty_table empty_table reference_solver
    1 D 1 [A; B].

Definition demand : DataFrame := table 100.

(** Two generators under one name, with availability 1 and 2. *)
Definition B1 : Generator :=
  {| Code := "B1"; name := "Unit"; Type_of_Plant := AVAILABLE_TYPE; variable_cost := 3 |}.
Definition B2 : Generator :=
  {| Code := "B2"; name := "Unit"; Type_of_Plant := AVAILABLE_TYPE; variable_cost := 4 |}.

Definition preloaded_same_name : gmap string DataFrame :=
  <["B1" := series 1]> (<["B2" := series 2]> ∅).

Definition run_same_name : M (option BlockResult) :=
  process_block preloaded_same_name grid empty_table empty_table reference_solver
    100 D 1 [B1; B2].

Definition result_same_name : BlockResult := Eval vm_compute in the_result run_same_name.

(** The scheduler over blocks 1 and 2 of day [D], the second future
    completing first, and the other way round. *)
Definition the_report (x : Exn + list ReportRow) : list ReportRow :=
  match x with
  | inr report => report
  | inl _ => []
  end.

Definition report_10 : list ReportRow :=
  Eval vm_compute in
    the_report (run_normal preloaded grid empty_table empty_table reference_solver
                  demand [A; B] D D 1 2 [1%nat; 0%nat]).


(** The report of block 1 under a raw demand of 100 and an open access of
    10. *)
Definition report_oa : list ReportRow :=
  Eval vm_compute in
    the_report (run_normal preloaded grid (table 10) empty_table reference_solver
                  demand [A; B] D D 1 1 [0%nat]).

End Example1.

(** The log line of the [except] clause of [process_block]. *)
Definition is_block_error (block : Z) (date : Date) (ev : Event) : Prop :=
  exists e, ev = LogError (ErrorProcessingBlock block date e).

(** ** Further contracts of a solver *)

(** A solver that answers every call (it does not raise). *)
Definition responsive (solver : Solver) : Prop :=
  forall prob vars, is_Some (solver prob vars).

Definition objective_value (prob : LpProblem) (sol : gmap string Q) : Q :=
  sum_Q (value_of sol <$> objective prob).

(** A solution reported as optimal is at least as good as any feasible one
    (the problems are maximisations). *)
Definition maximising (solver : Solver) : Prop :=
  forall prob vars sol,
    solver prob vars = Some (LpStatusOptimal, sol) ->
    forall sol', feasible prob vars sol' ->
      objective_value prob sol' <= objective_value prob sol.

(** ** Loading the generator series *)

(** [s.endswith(suffix)]: some tail of [s] is [suffix]. *)
Fixpoint endswith (s suffix : string) : bool :=
  String.eqb s suffix ||
  match s with
  | EmptyString => false
  | String _ s' => endswith s' suffix
  end.

(** The scan of [s.replace(old, new)] for a non-empty [old]: from left to
    right, an occurrence of [old] is replaced by [new] and the scan goes on
    behind it; [skip] counts the characters of the occurrence that are yet
    to be passed. *)
Fixpoint replace_from (old new : string) (skip : nat) (s : string) : string :=
  match s with
  | EmptyString => EmptyString
  | String c s' =>
      match skip with
      | S k => replace_from old new k s'
      | O =>
          if String.prefix old s
          then new +:+ replace_from old new (String.length old - 1) s'
          else String c (replace_from old new 0 s')
      end
  end.

Definition replace (s old new : string) : string := replace_from old new 0 s.

(** What [pd.read_excel] returns for a file: a frame with a [Date] column,
    or one without. *)
Inductive Sheet :=
  | WithDate (df : DataFrame)
  | WithoutDate.

Section Preload.

(** [pd.read_excel], which may raise. *)
Variable read_excel : string -> Exn + Sheet.

(** The loop of [preload_generator_data] over the directory listing;
    [logged] holds the file names of the error lines. *)
Fixpoint preload_loop (filenames : list string) (logged : list string)
    (generator_data : gmap string DataFrame)
    : Exn + (list string * gmap string DataFrame) :=
  match filenames with
  | [] => inr (logged, generator_data)
  | filename :: rest =>
      if endswith filename ".xlsx" then
        let generator_code := replace filename ".xlsx" "" in
        match read_excel filename with
        | inl e => inl e
        | inr WithoutDate => preload_loop rest (logged ++ [filename]) generator_data
        | inr (WithDate df) =>
            preload_loop rest logged (<[generator_code := df]> generator_data)
        end
      else preload_loop rest logged generator_data
  end.

Definition preload_generator_data (listdir : list string)
    : Exn + (list string * gmap string DataFrame) :=
  preload_loop listdir [] ∅.

End Preload.

(** Whether a file was read as a sheet without a [Date] column. *)
Definition without_date (sheet : Exn + Sheet) : bool :=
  match sheet with
  | inr WithoutDate => true
  | _ => false
  end.

(** [old] occurs in [s]. *)
Definition occurs_in (old s : string) : Prop :=
  exists before after, s = before +:+ old +:+ after.

(** A directory with the series of [A] and [B], a sheet without a [Date]
    column, and a file that is no spreadsheet and cannot be read as one. *)
Module Example2.
Import Example1.

Definition listdir : list string := ["A.xlsx"; "notes.txt"; "B.xlsx"; "old.xlsx"].

Definition read_excel (filename : string) : Exn + Sheet :=
  if String.eqb filename "A.xlsx" then inr (WithDate (series (1 # 10)))
  else if String.eqb filename "B.xlsx" then inr (WithDate (series (2 # 10)))
  else if String.eqb filename "old.xlsx" then inr WithoutDate
  else inl ValueError.

End Example2.

(** The part of the contract that bounds a dispatch from above: a solution
    reported as optimal gives every variable of the program a value that is
    at most its upper bound, and satisfies every constraint. *)
Definition capped (prob : LpProblem) (vars : gmap string LpVariable)
    (sol : gmap string Q) : Prop :=
  (forall x, x ∈ problem_variables prob ->
     exists var v, vars !! x = Some var /\ sol !! x = Some v /\ v <= upBound var) /\
  (forall lhs rhs, (lhs, rhs) ∈ constraints prob ->
     sum_Q (value_of sol <$> lhs) <= rhs).

Definition keeps_upper_bounds (solver : Solver) : Prop :=
  forall prob vars sol,
    solver prob vars = Some (LpStatusOptimal, sol) -> capped prob vars sol.

(** Two solvers that answer without solving, and their runs. *)
Module Example3.
Import Example1.

(** A solver that finds no solution. *)
Definition idle_solver : Solver := fun _ _ => Some (LpStatusNotSolved, ∅).

Definition run_not_solved : M (option BlockResult) :=
  process_block preloaded grid empty_table empty_table idle_solver 100 D 1 [A; B].

Definition result_not_solved : BlockResult :=
  Eval vm_compute in the_result run_not_solved.

(** A solver that reports every variable at its upper bound as the
    optimum, whether or not that bound lies above the lower bound. *)
Definition upper_bound_solver : Solver :=
  fun _ vars => Some (LpStatusOptimal, upBound <$> vars).

(** A negative availability in the series of [B]. *)
Definition preloaded_negative : gmap string DataFrame :=
  <["B" := series (-1)]> ∅.

Definition run_at_upper_bound : M (option BlockResult) :=
  process_block preloaded_negative grid empty_table empty_table upper_bound_solver
    100 D 1 [B].

Definition result_at_upper_bound : BlockResult :=
  Eval vm_compute in the_result run_at_upper_bound.

End Example3.

(** * Properties *)

(** ** The monad *)

Lemma outcome_bind {A B} (m : M A) (f : A -> M B) :
  outcome (m ≫= f) =
  match outcome m with inl e => inl e | inr a => outcome (f a) end.
Proof.
  destruct m as [l [e|a]]; [reflexivity|].
  unfold mbind, M_bind, outcome; simpl. destruct (f a); reflexivity.
Qed.

Lemma events_bind {A B} (m : M A) (f : A -> M B) :
  events (m ≫= f) =
  events m ++ match outcome m with inl _ => [] | inr a => events (f a) end.
Proof.
  destruct m as [l [e|a]]; unfold mbind, M_bind, events, outcome; simpl.
  - by rewrite app_nil_r.
  - destruct (f a); reflexivity.
Qed.

Lemma outcome_try_except {A} (m : M A) (h : Exn -> M A) :
  outcome (try_except m h) =
  match outcome m with inl e => outcome (h e) | inr a => inr a end.
Proof.
  destruct m as [l [e|a]]; unfold try_except, outcome; simpl; [|reflexivity].
  destruct (h e); reflexivity.
Qed.

Lemma events_try_except {A} (m : M A) (h : Exn -> M A) :
  events (try_except m h) =
  events m ++ match outcome m with inl e => events (h e) | inr _ => [] end.
Proof.
  destruct m as [l [e|a]]; unfold try_except, events, outcome; simpl.
  - destruct (h e); reflexivity.
  - by rewrite app_nil_r.
Qed.

Lemma outcome_mret {A} (a : A) : outcome (mret a : M A) = inr a.
Proof. reflexivity. Qed.

Lemma events_mret {A} (a : A) : events (mret a : M A) = [].
Proof. reflexivity. Qed.

Lemma outcome_raise {A} (e : Exn) : outcome (raise e : M A) = inl e.
Proof. reflexivity. Qed.

Lemma events_raise {A} (e : Exn) : events (raise e : M A) = [].
Proof. reflexivity. Qed.

Lemma outcome_log (ev : Event) : outcome (log ev) = inr tt.
Proof. reflexivity. Qed.

Lemma events_log (ev : Event) : events (log ev) = [ev].
Proof. reflexivity. Qed.

(** Closes a goal whose hypothesis [H] puts an event into a list of events
    of other kinds. *)
Ltac absent_event H :=
  simpl in H;
  repeat (apply elem_of_cons in H as [H|H]; [discriminate H|]);
  by apply elem_of_nil in H.

(** ** Comparisons and sums of rationals *)

Lemma Qltb_lt (x y : Q) : Qltb x y = true <-> x < y.
Proof.
  unfold Qltb. rewrite negb_true_iff, <- not_true_iff_false, Qle_bool_iff.
  split; [apply Qnot_le_lt | apply Qlt_not_le].
Qed.

Lemma Qltb_ge (x y : Q) : Qltb x y = false <-> y <= x.
Proof.
  unfold Qltb. rewrite negb_false_iff. apply Qle_bool_iff.
Qed.

Lemma foldl_Qplus_shift (l : list Q) (a : Q) : foldl Qplus a l == a + sum_Q l.
Proof.
  unfold sum_Q. revert a. induction l as [|x l IH]; intros a; simpl.
  - lra.
  - rewrite (IH (a + x)), (IH (0 + x)). lra.
Qed.

Lemma sum_Q_cons (x : Q) (l : list Q) : sum_Q (x :: l) == x + sum_Q l.
Proof. unfold sum_Q at 1. simpl. rewrite foldl_Qplus_shift. lra. Qed.

Lemma sum_Q_nil : sum_Q [] = 0.
Proof. reflexivity. Qed.

(** ** Demand adjustment *)

Lemma adjust_demand_with_open_access_entry date block demand_mw df :
  adjust_demand_with_open_access date block demand_mw df =
  match lookup_entry date block df with
  | None => (demand_mw * DEMAND_CONVERSION_FACTOR, 0)
  | Some oa => ((demand_mw - oa) * DEMAND_CONVERSION_FACTOR, oa)
  end.
Proof.
  unfold adjust_demand_with_open_access, lookup_entry, block_column.
  destruct (filter_date date df) as [|row rest]; [reflexivity|].
  destruct (has_column (LInt block) df) eqn:Hint; simpl.
  - rewrite Hint. reflexivity.
  - destruct (has_column (LStr (str block)) df); reflexivity.
Qed.

Lemma adjust_demand_with_bank_entry date block demand_kwh df :
  adjust_demand_with_bank date block demand_kwh df =
  match lookup_entry date block df with
  | None => (demand_kwh, 0)
  | Some bank => (demand_kwh + bank * DEMAND_CONVERSION_FACTOR, bank)
  end.
Proof.
  unfold adjust_demand_with_bank, lookup_entry, block_column.
  destruct (filter_date date df) as [|row rest]; [reflexivity|].
  destruct (has_column (LInt block) df) eqn:Hint; simpl.
  - rewrite Hint. reflexivity.
  - destruct (has_column (LStr (str block)) df); reflexivity.
Qed.

(** C5.  A key that is absent from the OA table (respectively the Bank
    table) is adjusted like a key that is present with value 0: the same
    net demand in kWh comes back, the reported adjustment is 0, and the
    adjustment functions return a value in every case (their type has no
    exception).  The same holds for the two adjustments in sequence. *)
Theorem missing_entry_is_zero_entry
    (date : Date) (block : Z) (demand : Q) (df_missing df_zero : DataFrame) (z : Q) :
  lookup_entry date block df_missing = None ->
  lookup_entry date block df_zero = Some z ->
  z == 0 ->
  let oa_missing := adjust_demand_with_open_access date block demand df_missing in
  let oa_zero := adjust_demand_with_open_access date block demand df_zero in
  let bank_missing := adjust_demand_with_bank date block demand df_missing in
  let bank_zero := adjust_demand_with_bank date block demand df_zero in
  (oa_missing.1 == oa_zero.1 /\ oa_missing.2 = 0 /\ oa_zero.2 == 0) /\
  (bank_missing.1 == bank_zero.1 /\ bank_missing.2 = 0 /\ bank_zero.2 == 0) /\
  (forall df_bank, net_demand df_missing df_bank date block demand
                   == net_demand df_zero df_bank date block demand) /\
  (forall df_oa, net_demand df_oa df_missing date block demand
                 == net_demand df_oa df_zero date block demand).
Proof.
  intros Hmiss Hzero Hz. cbv zeta. unfold net_demand.
  rewrite !adjust_demand_with_open_access_entry, !adjust_demand_with_bank_entry.
  rewrite Hmiss, Hzero. simpl.
  repeat split; try reflexivity; try assumption.
  - rewrite Hz. unfold DEMAND_CONVERSION_FACTOR. lra.
  - rewrite Hz. unfold DEMAND_CONVERSION_FACTOR. lra.
  - intros df_bank. rewrite !adjust_demand_with_bank_entry.
    destruct (lookup_entry date block df_bank); simpl; rewrite Hz;
      unfold DEMAND_CONVERSION_FACTOR; lra.
  - intros df_oa. rewrite !adjust_demand_with_bank_entry, Hmiss, Hzero. simpl.
    rewrite Hz. unfold DEMAND_CONVERSION_FACTOR. lra.
Qed.

(** ** Must-run allocation *)

Section DispatchFacts.

Variable preloaded_generators : gmap string DataFrame.
Variables df_grid_cost df_oa df_bank : DataFrame.
Variable solver : Solver.

Local Abbreviation calculate_must_run_power :=
  (calculate_must_run_power preloaded_generators).
Local Abbreviation must_run_loop := (must_run_loop preloaded_generators).
Local Abbreviation set_upBounds := (set_upBounds preloaded_generators).
Local Abbreviation energy_bound := (energy_bound preloaded_generators).
Local Abbreviation optimize_available_generators :=
  (optimize_available_generators preloaded_generators solver).
Local Abbreviation optimize_power_for_demand :=
  (optimize_power_for_demand preloaded_generators df_grid_cost solver).
Local Abbreviation process_block :=
  (process_block preloaded_generators df_grid_cost df_oa df_bank solver).
Local Abbreviation net_demand := (net_demand df_oa df_bank).

Lemma loc_date_block_events data date block :
  events (loc_date_block data date block) = [].
Proof.
  unfold loc_date_block.
  destruct (has_column _ _); [|reflexivity].
  destruct (filter_date _ _); reflexivity.
Qed.

Lemma loc_date_block_no_data_point data date block :
  no_data_point data date block ->
  outcome (loc_date_block data date block) = inl KeyError \/
  outcome (loc_date_block data date block) = inl IndexError.
Proof.
  unfold loc_date_block. intros [Hcol|Hrow].
  - rewrite Hcol. by left.
  - rewrite Hrow. destruct (has_column _ _); [by right | by left].
Qed.

Lemma must_run_loop_events gs date block p c d :
  events (must_run_loop gs date block p c d) = [].
Proof.
  revert p c d. induction gs as [|g gs IH]; intros p c d; simpl; [reflexivity|].
  destruct (preloaded_generators !! Code g) as [data|]; [|apply IH].
  rewrite events_bind, loc_date_block_events.
  destruct (outcome (loc_date_block data date block)); [reflexivity | apply IH].
Qed.

Lemma must_run_loop_no_data_point gs date block p c d g data :
  g ∈ gs ->
  preloaded_generators !! Code g = Some data ->
  no_data_point data date block ->
  outcome (must_run_loop gs date block p c d) = inl KeyError \/
  outcome (must_run_loop gs date block p c d) = inl IndexError.
Proof.
  intros Hin Hdata Hno. revert p c d.
  induction gs as [|g' gs IH]; intros p c d; [by apply elem_of_nil in Hin|].
  simpl. apply elem_of_cons in Hin as [->|Hin].
  - rewrite Hdata, outcome_bind.
    destruct (loc_date_block_no_data_point _ _ _ Hno) as [H|H]; rewrite H; auto.
  - destruct (preloaded_generators !! Code g') as [data'|]; [|by apply IH].
    rewrite outcome_bind.
    destruct (outcome (loc_date_block data' date block)) as [e|v] eqn:He;
      [|by apply IH].
    unfold loc_date_block in He.
    destruct (has_column _ _); [|injection He as <-; by left].
    destruct (filter_date _ _); [injection He as <-; by right | discriminate].
Qed.

Lemma must_run_loop_skip gs1 g gs2 date block p c d :
  preloaded_generators !! Code g = None ->
  must_run_loop (gs1 ++ g :: gs2) date block p c d =
  must_run_loop (gs1 ++ gs2) date block p c d.
Proof.
  intros Hnone. revert p c d.
  induction gs1 as [|g1 gs1 IH]; intros p c d; simpl.
  - by rewrite Hnone.
  - destruct (preloaded_generators !! Code g1) as [data|]; [|apply IH].
    destruct (loc_date_block data date block) as [l [e|v]]; [reflexivity|].
    unfold mbind, M_bind. by rewrite IH.
Qed.

Lemma calculate_must_run_power_events gs date block :
  events (calculate_must_run_power gs date block) = [].
Proof. apply must_run_loop_events. Qed.

(** ** The block driver, unfolded *)

Lemma process_block_unfold demand date block gens :
  process_block demand date block gens =
  try_except
    (result ← optimize_power_for_demand (net_demand date block demand) date block
                gens (setup_optimization_problem gens).1
                (setup_optimization_problem gens).2;
     match result with
     | None => raise TypeError
     | Some result =>
         mret (Some (set_Bank_Adjustment
                 (adjust_demand_with_bank date block
                    (adjust_demand_with_open_access date block demand df_oa).1
                    df_bank).2
                 (set_OA_Used
                    (adjust_demand_with_open_access date block demand df_oa).2
                    result)))
     end)
    (handler block date).
Proof.
  unfold process_block, net_demand.
  destruct (adjust_demand_with_open_access date block demand df_oa) as [d1 oa].
  simpl. destruct (adjust_demand_with_bank date block d1 df_bank) as [d2 bank].
  reflexivity.
Qed.

Lemma process_block_never_raises demand date block gens :
  exists result, outcome (process_block demand date block gens) = inr result.
Proof.
  rewrite process_block_unfold, outcome_try_except.
  destruct (outcome _) as [e|r]; eauto.
Qed.

Lemma M_eta {A} (m : M A) : m = (events m, outcome m).
Proof. by destruct m. Qed.

Lemma calculate_must_run_power_eta gs date block x :
  outcome (calculate_must_run_power gs date block) = x ->
  calculate_must_run_power gs date block = ([], x).
Proof.
  intros <-. rewrite (M_eta (calculate_must_run_power gs date block)) at 1.
  by rewrite calculate_must_run_power_events.
Qed.

(** ** Negative remaining demand *)

Lemma optimize_power_for_demand_negative demand_kwh date block gens prob vars mp mc md :
  outcome (calculate_must_run_power gens date block) = inr (mp, mc, md) ->
  demand_kwh - mp < 0 ->
  optimize_power_for_demand demand_kwh date block gens prob vars =
  ([LogError (InvalidRemainingDemand (demand_kwh - mp))], inr None).
Proof.
  intros Hmr Hneg. unfold optimize_power_for_demand.
  rewrite (calculate_must_run_power_eta _ _ _ _ Hmr).
  apply Qltb_lt in Hneg.
  unfold mbind at 1, M_bind at 1. rewrite Hneg. reflexivity.
Qed.

Lemma process_block_negative demand date block gens mp mc md :
  outcome (calculate_must_run_power gens date block) = inr (mp, mc, md) ->
  net_demand date block demand - mp < 0 ->
  process_block demand date block gens =
  ([LogError (InvalidRemainingDemand (net_demand date block demand - mp));
    LogError (ErrorProcessingBlock block date TypeError)], inr None).
Proof.
  intros Hmr Hneg. rewrite process_block_unfold.
  rewrite (optimize_power_for_demand_negative _ _ _ _ _ _ _ _ _ Hmr Hneg).
  reflexivity.
Qed.

(** ** Missing must-run data *)

Lemma process_block_must_run_raises demand date block gens e :
  outcome (calculate_must_run_power gens date block) = inl e ->
  process_block demand date block gens =
  ([LogError (ErrorProcessingBlock block date e)], inr None).
Proof.
  intros Hmr. rewrite process_block_unfold. unfold optimize_power_for_demand.
  rewrite (calculate_must_run_power_eta _ _ _ _ Hmr). reflexivity.
Qed.

(** C2, as the code has it.  A must-run generator whose availability series
    is loaded but has no data point for (date, block) fails the block: the
    lookup raises [KeyError] or [IndexError], which [process_block] logs,
    and no result is produced.  A must-run generator that has no series at
    all is passed over: the allocation is the one of the generator list
    without it, so it adds no energy and no cost. *)
Theorem must_run_without_data_point_fails
    (demand : Q) (date : Date) (block : Z) (gens : list Generator) :
  (forall g data,
     g ∈ gens ->
     Type_of_Plant g = MUST_RUN_TYPE ->
     preloaded_generators !! Code g = Some data ->
     no_data_point data date block ->
     exists e, (e = KeyError \/ e = IndexError) /\
       process_block demand date block gens =
       ([LogError (ErrorProcessingBlock block date e)], inr None)) /\
  (forall gs1 g gs2,
     gens = gs1 ++ g :: gs2 ->
     preloaded_generators !! Code g = None ->
     calculate_must_run_power gens date block =
     calculate_must_run_power (gs1 ++ gs2) date block).
Proof.
  split.
  - intros g data Hin Htype Hdata Hno.
    assert (Hin' : g ∈ filter (fun g => Type_of_Plant g = MUST_RUN_TYPE) gens)
      by (apply list_elem_of_filter; auto).
    destruct (must_run_loop_no_data_point _ date block 0 0 [] _ _ Hin' Hdata Hno)
      as [H|H]; eexists; (split; [|apply process_block_must_run_raises, H]); auto.
  - intros gs1 g gs2 -> Hnone. unfold calculate_must_run_power.
    rewrite !filter_app, filter_cons.
    destruct (decide (Type_of_Plant g = MUST_RUN_TYPE)); [|reflexivity].
    by apply must_run_loop_skip.
Qed.

(** ** The grid rate *)

Lemma load_grid_cost_entry date block df :
  load_grid_cost date block df =
  match lookup_entry date block df with
  | Some rate => ([], inr rate)
  | None => ([], inl ValueError)
  end.
Proof.
  unfold load_grid_cost, lookup_entry, block_column.
  destruct (filter_date date df) as [|row rest]; [reflexivity|].
  destruct (has_column (LInt block) df) eqn:Hint; simpl.
  - rewrite Hint. reflexivity.
  - destruct (has_column (LStr (str block)) df); reflexivity.
Qed.

(** ** The optimiser call *)

Lemma getitem_events {V} (d : gmap string V) key : events (getitem d key) = [].
Proof. unfold getitem. by destruct (d !! key). Qed.

Lemma set_upBounds_events gs date block vars :
  events (set_upBounds gs date block vars) = [].
Proof.
  revert vars. induction gs as [|g gs IH]; intros vars; simpl; [reflexivity|].
  destruct (preloaded_generators !! Code g) as [data|]; [|apply IH].
  rewrite events_bind, loc_date_block_events.
  destruct (outcome (loc_date_block data date block)); [reflexivity|]. simpl.
  rewrite events_bind, getitem_events.
  destruct (outcome (getitem vars (name g))); [reflexivity | apply IH].
Qed.

Lemma lpSum_events vars gs : events (lpSum vars gs) = [].
Proof.
  induction gs as [|g gs IH]; simpl; [reflexivity|].
  rewrite events_bind, getitem_events.
  destruct (outcome (getitem vars (name g))); [reflexivity|]. simpl.
  rewrite events_bind, IH. by destruct (outcome (lpSum vars gs)).
Qed.

Lemma lpSum_outcome vars gs e :
  outcome (lpSum vars gs) = inr e -> e = name <$> gs.
Proof.
  revert e. induction gs as [|g gs IH]; intros e; simpl.
  - by intros [= <-].
  - rewrite outcome_bind.
    destruct (outcome (getitem vars (name g))); [discriminate|].
    rewrite outcome_bind.
    destruct (outcome (lpSum vars gs)) as [|e']; [discriminate|].
    intros [= <-]. by rewrite (IH e').
Qed.

Lemma varValues_events sol gs : events (varValues sol gs) = [].
Proof.
  induction gs as [|g gs IH]; simpl; [reflexivity|].
  destruct (sol !! name g); [|reflexivity].
  rewrite events_bind, IH. by destruct (outcome (varValues sol gs)).
Qed.

Lemma varValues_outcome sol gs vs :
  outcome (varValues sol gs) = inr vs <->
  Forall2 (fun g v => sol !! name g = Some v) gs vs.
Proof.
  revert vs. induction gs as [|g gs IH]; intros vs; simpl.
  - split; [intros [= <-]; constructor | intros H; by inversion H].
  - destruct (sol !! name g) as [v|] eqn:Hv.
    + rewrite outcome_bind. split.
      * destruct (outcome (varValues sol gs)) as [|vs'] eqn:Hvs; [discriminate|].
        intros [= <-]. constructor; [done | by apply IH].
      * intros H. inversion H as [|g' v' gs' vs' Hv' Hrest]; subst.
        apply IH in Hrest. rewrite Hrest. simpl. congruence.
    + split; [discriminate|]. intros H. inversion H; congruence.
Qed.

(** The program handed to [prob.solve()]. *)
Lemma optimize_available_generators_result rem date block gens prob vars am ac ad :
  let avail := filter (fun g => Type_of_Plant g = AVAILABLE_TYPE) gens in
  outcome (optimize_available_generators rem date block gens prob vars)
    = inr (am, ac, ad) ->
  exists vars' status sol,
    outcome (set_upBounds avail date block vars) = inr vars' /\
    solver {| objective := name <$> avail;
              constraints := constraints prob ++ [(name <$> avail, rem)] |} vars'
      = Some (status, sol) /\
    ((status <> LpStatusOptimal /\ am = 0 /\ ac = 0 /\ ad = []) \/
     (status = LpStatusOptimal /\
      exists vs,
        Forall2 (fun g v => sol !! name g = Some v) avail vs /\
        am = sum_Q vs /\
        ac = sum_Q (zip_with (fun v g => v * variable_cost g) vs avail) /\
        ad = zip_with (fun v g => {| detail_code := Code g; detail_kwh := v;
                                     detail_inr := v * variable_cost g |})
                      vs avail)).
Proof.
  intros avail. unfold optimize_available_generators. fold avail.
  rewrite outcome_bind.
  destruct (outcome (set_upBounds avail date block vars)) as [|vars'] eqn:Hvars;
    [discriminate|].
  rewrite outcome_bind.
  destruct (outcome (lpSum vars' avail)) as [|obj] eqn:Hobj; [discriminate|].
  rewrite outcome_bind, Hobj. apply lpSum_outcome in Hobj as ->.
  rewrite outcome_bind, outcome_log.
  destruct (solver _ vars') as [[status sol]|] eqn:Hsolve; [|discriminate].
  intros H. exists vars', status, sol. split; [done|]. split; [done|].
  destruct (decide (status = LpStatusOptimal)) as [->|Hstatus].
  - right. split; [done|]. rewrite outcome_bind in H.
    destruct (outcome (varValues sol avail)) as [|vs] eqn:Hvs; [discriminate|].
    injection H as <- <- <-. exists vs. by apply varValues_outcome in Hvs.
  - left. rewrite outcome_bind, outcome_log in H. by injection H as <- <- <-.
Qed.

Lemma optimize_available_generators_events rem date block gens prob vars ev :
  ev ∈ events (optimize_available_generators rem date block gens prob vars) ->
  (exists p v, ev = Solve p v) \/ ev = LogError NoFeasibleSolution.
Proof.
  unfold optimize_available_generators.
  rewrite events_bind, set_upBounds_events.
  destruct (outcome (set_upBounds _ _ _ _)) as [|vars']; [by intros ?%elem_of_nil|].
  rewrite events_bind, lpSum_events.
  destruct (outcome (lpSum _ _)) as [|obj] eqn:Hobj; [by intros ?%elem_of_nil|].
  rewrite events_bind, lpSum_events, Hobj, events_bind, events_log, outcome_log.
  simpl. intros [->|Hin]%elem_of_cons; [left; eauto|].
  destruct (solver _ vars') as [[status sol]|]; [|by apply elem_of_nil in Hin].
  destruct (decide (status = LpStatusOptimal)).
  - rewrite events_bind, varValues_events in Hin.
    destruct (outcome (varValues _ _)); by apply elem_of_nil in Hin.
  - apply list_elem_of_singleton in Hin. by right.
Qed.

(** ** The four ways through [optimize_power_for_demand] *)

Lemma optimize_power_for_demand_cases demand_kwh date block gens prob vars mp mc md :
  outcome (calculate_must_run_power gens date block) = inr (mp, mc, md) ->
  let rem := demand_kwh - mp in
  optimize_power_for_demand demand_kwh date block gens prob vars =
  if Qltb rem 0 then ([LogError (InvalidRemainingDemand rem)], inr None)
  else
    match lookup_entry date block df_grid_cost with
    | None => ([LogError (ErrorLoadingGridCost ValueError)], inr None)
    | Some grid_cost =>
        if Qltb 0 rem then
          '(am, ac, ad) ← optimize_available_generators rem date block gens prob vars;
          mret (Some {|
            r_Date := date; r_Block := block; r_Demand := demand_kwh;
            r_Total_Demand_Met := demand_kwh;
            r_Must_Run_Generators_Used := mp;
            r_Available_Generators_Used := am;
            r_Grid_Consumption := if Qltb am rem then rem - am else 0;
            r_Total_Cost :=
              if Qltb am rem then mc + ac + (rem - am) * grid_cost else mc + ac;
            r_Grid_Rate := grid_cost;
            r_OA_Used := None; r_Bank_Adjustment := None;
            r_Must_Run_Generator_Details := md;
            r_Available_Generator_Details := ad |})
        else ([], inl UnboundLocalError)
    end.
Proof.
  intros Hmr rem. unfold optimize_power_for_demand.
  rewrite (calculate_must_run_power_eta _ _ _ _ Hmr).
  unfold mbind at 1, M_bind at 1. fold rem.
  destruct (Qltb rem 0); [reflexivity|].
  rewrite load_grid_cost_entry.
  destruct (lookup_entry date block df_grid_cost) as [grid_cost|]; [|reflexivity].
  simpl. destruct (Qltb 0 rem); [|reflexivity].
  destruct (optimize_available_generators rem date block gens prob vars)
    as [l [e|[[am ac] ad]]]; [reflexivity|].
  unfold mbind, M_bind. destruct (Qltb am rem); reflexivity.
Qed.

(** ** Successful blocks *)

(** What a result that [process_block] returns is made of. *)
Lemma process_block_success demand date block gens r :
  outcome (process_block demand date block gens) = inr (Some r) ->
  exists mp mc md grid_cost am ac ad,
    let net := net_demand date block demand in
    let rem := net - mp in
    outcome (calculate_must_run_power gens date block) = inr (mp, mc, md) /\
    lookup_entry date block df_grid_cost = Some grid_cost /\
    0 < rem /\
    outcome (optimize_available_generators rem date block gens
               (setup_optimization_problem gens).1
               (setup_optimization_problem gens).2) = inr (am, ac, ad) /\
    r_Date r = date /\ r_Block r = block /\
    r_Demand r = net /\
    r_Must_Run_Generators_Used r = mp /\
    r_Available_Generators_Used r = am /\
    r_Grid_Consumption r = (if Qltb am rem then rem - am else 0) /\
    r_Total_Cost r =
      (if Qltb am rem then mc + ac + (rem - am) * grid_cost else mc + ac) /\
    r_Grid_Rate r = grid_cost /\
    r_OA_Used r = Some (adjust_demand_with_open_access date block demand df_oa).2 /\
    r_Bank_Adjustment r =
      Some (adjust_demand_with_bank date block
              (adjust_demand_with_open_access date block demand df_oa).1 df_bank).2 /\
    r_Must_Run_Generator_Details r = md /\
    r_Available_Generator_Details r = ad.
Proof.
  rewrite process_block_unfold, outcome_try_except, outcome_bind.
  destruct (outcome (calculate_must_run_power gens date block))
    as [e|[[mp mc] md]] eqn:Hmr.
  { unfold optimize_power_for_demand.
    rewrite (calculate_must_run_power_eta _ _ _ _ Hmr). discriminate. }
  rewrite (optimize_power_for_demand_cases _ _ _ _ _ _ _ _ _ Hmr). cbv zeta.
  destruct (Qltb (net_demand date block demand - mp) 0); [discriminate|].
  destruct (lookup_entry date block df_grid_cost) as [grid_cost|]; [|discriminate].
  destruct (Qltb 0 _) eqn:Hpos; [|discriminate].
  apply Qltb_lt in Hpos. rewrite outcome_bind.
  destruct (outcome (optimize_available_generators _ _ _ _ _ _))
    as [e|[[am ac] ad]] eqn:Hopt; [discriminate|].
  simpl. intros [= <-].
  exists mp, mc, md, grid_cost, am, ac, ad. simpl. repeat split; done.
Qed.

(** What the available generators deliver never exceeds the remaining
    demand, for a solver that keeps its contract. *)
Lemma Forall2_value_of (sol : gmap string Q) (gs : list Generator) vs :
  Forall2 (fun g v => sol !! name g = Some v) gs vs ->
  vs = value_of sol <$> (name <$> gs).
Proof.
  induction 1 as [|g v gs vs Hv _ IH]; [reflexivity|].
  simpl. unfold value_of at 1. rewrite Hv. simpl. by f_equal.
Qed.

Lemma available_energy_le_remaining rem date block gens vars am ac ad :
  sound solver ->
  0 <= rem ->
  outcome (optimize_available_generators rem date block gens
             {| objective := []; constraints := [] |} vars) = inr (am, ac, ad) ->
  am <= rem.
Proof.
  intros Hsound Hrem Hopt.
  apply optimize_available_generators_result in Hopt
    as (vars' & status & sol & _ & Hsolve & [(_ & -> & _)|(-> & vs & Hvs & -> & _)]);
    [done|].
  apply Hsound in Hsolve as [_ Hcons]. simpl in Hcons.
  rewrite (Forall2_value_of _ _ _ Hvs).
  apply Hcons. by apply list_elem_of_singleton.
Qed.

(** C1.  Conservation: in every result that [process_block] returns, the
    must-run energy, the energy of the available generators and the grid
    energy add up to the net demand (the demand after the open-access and
    bank adjustments, in kWh) that went into the optimisation, for a solver
    whose optimal solutions are feasible. *)
Theorem conservation
    (demand : Q) (date : Date) (block : Z) (gens : list Generator) (r : BlockResult) :
  sound solver ->
  outcome (process_block demand date block gens) = inr (Some r) ->
  r_Must_Run_Generators_Used r + r_Available_Generators_Used r + r_Grid_Consumption r
    == net_demand date block demand.
Proof.
  intros Hsound Hr.
  apply process_block_success in Hr
    as (mp & mc & md & gc & am & ac & ad & _ & _ & Hpos & Hopt
        & _ & _ & _ & -> & -> & -> & _).
  cbv zeta in *.
  apply available_energy_le_remaining in Hopt; [|done|lra].
  destruct (Qltb am _) eqn:Hlt; [lra|].
  apply Qltb_ge in Hlt. lra.
Qed.

(** ** Failure on a missing grid rate *)

Lemma process_block_no_rate demand date block gens mp mc md :
  outcome (calculate_must_run_power gens date block) = inr (mp, mc, md) ->
  0 <= net_demand date block demand - mp ->
  lookup_entry date block df_grid_cost = None ->
  process_block demand date block gens =
  ([LogError (ErrorLoadingGridCost ValueError);
    LogError (ErrorProcessingBlock block date TypeError)], inr None).
Proof.
  intros Hmr Hrem Hrate. rewrite process_block_unfold.
  rewrite (optimize_power_for_demand_cases _ _ _ _ _ _ _ _ _ Hmr). cbv zeta.
  apply Qltb_ge in Hrem. rewrite Hrem, Hrate. reflexivity.
Qed.

Lemma process_block_zero_remaining demand date block gens mp mc md rate :
  outcome (calculate_must_run_power gens date block) = inr (mp, mc, md) ->
  net_demand date block demand - mp == 0 ->
  lookup_entry date block df_grid_cost = Some rate ->
  process_block demand date block gens =
  ([LogError (ErrorProcessingBlock block date UnboundLocalError)], inr None).
Proof.
  intros Hmr Hrem Hrate. rewrite process_block_unfold.
  rewrite (optimize_power_for_demand_cases _ _ _ _ _ _ _ _ _ Hmr). cbv zeta.
  assert (H1 : Qltb (net_demand date block demand - mp) 0 = false)
    by (apply Qltb_ge; lra).
  assert (H2 : Qltb 0 (net_demand date block demand - mp) = false)
    by (apply Qltb_ge; lra).
  rewrite H1, Hrate, H2. reflexivity.
Qed.

Lemma process_block_with_rate_events demand date block gens mp mc md rate ev :
  outcome (calculate_must_run_power gens date block) = inr (mp, mc, md) ->
  lookup_entry date block df_grid_cost = Some rate ->
  ev ∈ events (process_block demand date block gens) ->
  ~ is_grid_rate_error ev.
Proof.
  intros Hmr Hrate. rewrite process_block_unfold.
  rewrite (optimize_power_for_demand_cases _ _ _ _ _ _ _ _ _ Hmr). cbv zeta.
  rewrite Hrate.
  destruct (Qltb (_ - mp) 0).
  { intros Hin [e ->]. absent_event Hin. }
  destruct (Qltb 0 _).
  2:{ intros Hin [e ->]. absent_event Hin. }
  rewrite events_try_except, !events_bind, !outcome_bind.
  intros Hin [e ->].
  apply elem_of_app in Hin as [Hin|Hin].
  - apply elem_of_app in Hin as [Hin|Hin].
    + apply elem_of_app in Hin as [Hin|Hin].
      * apply optimize_available_generators_events in Hin as [(p & v & ?)|?];
          discriminate.
      * destruct (outcome (optimize_available_generators _ _ _ _ _ _))
          as [|[[am ac] ad]]; absent_event Hin.
    + destruct (outcome (optimize_available_generators _ _ _ _ _ _))
        as [|[[am ac] ad]]; absent_event Hin.
  - destruct (outcome (optimize_available_generators _ _ _ _ _ _))
      as [|[[am ac] ad]]; absent_event Hin.
Qed.

(** C3, as the code has it.  The grid rate is looked up before the
    optimiser runs, whatever the residual will be.  A block fails on a
    missing grid rate exactly when the must-run allocation went through,
    the remaining demand is not negative and the rate table has no entry
    for (date, block); the block then has no result and the solver was not
    called. *)
Theorem grid_rate_failure_iff
    (demand : Q) (date : Date) (block : Z) (gens : list Generator) :
  let run := process_block demand date block gens in
  ((exists ev, ev ∈ events run /\ is_grid_rate_error ev) <->
   (exists mp mc md,
      outcome (calculate_must_run_power gens date block) = inr (mp, mc, md) /\
      0 <= net_demand date block demand - mp /\
      lookup_entry date block df_grid_cost = None)) /\
  ((exists ev, ev ∈ events run /\ is_grid_rate_error ev) ->
   outcome run = inr None /\ forall p v, Solve p v ∉ events run).
Proof.
  cbv zeta.
  assert (Hiff :
    (exists ev, ev ∈ events (process_block demand date block gens)
                /\ is_grid_rate_error ev) ->
    exists mp mc md,
      outcome (calculate_must_run_power gens date block) = inr (mp, mc, md) /\
      0 <= net_demand date block demand - mp /\
      lookup_entry date block df_grid_cost = None).
  { intros (ev & Hin & Hev).
    destruct (outcome (calculate_must_run_power gens date block))
      as [e|[[mp mc] md]] eqn:Hmr.
    { rewrite (process_block_must_run_raises _ _ _ _ _ Hmr) in Hin.
      destruct Hev as [e' ->]. absent_event Hin. }
    destruct (Qlt_le_dec (net_demand date block demand - mp) 0) as [Hneg|Hpos].
    { rewrite (process_block_negative _ _ _ _ _ _ _ Hmr Hneg) in Hin.
      destruct Hev as [e' ->]. absent_event Hin. }
    destruct (lookup_entry date block df_grid_cost) as [rate|] eqn:Hrate.
    { by destruct (process_block_with_rate_events _ _ _ _ _ _ _ _ _ Hmr Hrate Hin). }
    by exists mp, mc, md. }
  split; [split; [exact Hiff|] |].
  - intros (mp & mc & md & Hmr & Hrem & Hrate).
    rewrite (process_block_no_rate _ _ _ _ _ _ _ Hmr Hrem Hrate).
    exists (LogError (ErrorLoadingGridCost ValueError)).
    split; [apply elem_of_cons; by left | by eexists].
  - intros (mp & mc & md & Hmr & Hrem & Hrate)%Hiff.
    rewrite (process_block_no_rate _ _ _ _ _ _ _ Hmr Hrem Hrate).
    split; [reflexivity|]. intros p v Hin. absent_event Hin.
Qed.

(** ** Bounds of the decision variables *)

Local Abbreviation available gens :=
  (filter (fun g => Type_of_Plant g = AVAILABLE_TYPE) gens).

Lemma setup_optimization_problem_prob gens :
  (setup_optimization_problem gens).1 = {| objective := []; constraints := [] |}.
Proof. reflexivity. Qed.

Lemma setup_vars_foldl gens (acc : gmap string LpVariable) g :
  (forall x v, acc !! x = Some v -> v = {| lowBound := 0; upBound := 0 |}) ->
  g ∈ gens \/ is_Some (acc !! name g) ->
  foldl (fun vars g => <[name g := {| lowBound := 0; upBound := 0 |}]> vars) acc gens
    !! name g = Some {| lowBound := 0; upBound := 0 |}.
Proof.
  revert acc. induction gens as [|g' gens IH]; intros acc Hacc Hin; simpl.
  - destruct Hin as [Hin|[v Hv]]; [by apply elem_of_nil in Hin|].
    by rewrite Hv, (Hacc _ _ Hv).
  - apply IH.
    + intros x v. rewrite lookup_insert. case_decide; [congruence | apply Hacc].
    + destruct Hin as [[->|Hin]%elem_of_cons|Hin]; [right| by left |right].
      * by rewrite lookup_insert_eq.
      * rewrite lookup_insert. by case_decide.
Qed.

Lemma setup_optimization_problem_vars gens g :
  g ∈ gens ->
  (setup_optimization_problem gens).2 !! name g
    = Some {| lowBound := 0; upBound := 0 |}.
Proof.
  intros Hin. apply setup_vars_foldl; [|by left].
  intros x v. by rewrite lookup_empty.
Qed.

Lemma set_upBounds_other gs date block vars vars' x :
  outcome (set_upBounds gs date block vars) = inr vars' ->
  x ∉ name <$> gs ->
  vars' !! x = vars !! x.
Proof.
  revert vars. induction gs as [|g gs IH]; intros vars; simpl.
  - by intros [= <-].
  - intros Hout Hx. apply not_elem_of_cons in Hx as [Hne Hx].
    destruct (preloaded_generators !! Code g) as [data|]; [|by apply IH].
    rewrite outcome_bind in Hout.
    destruct (outcome (loc_date_block data date block)); [discriminate|].
    rewrite outcome_bind in Hout. unfold getitem in Hout.
    destruct (vars !! name g) as [v|]; [|discriminate]. simpl in Hout.
    rewrite (IH _ Hout Hx). by rewrite lookup_insert_ne.
Qed.

Lemma set_upBounds_lookup gs date block vars vars' :
  outcome (set_upBounds gs date block vars) = inr vars' ->
  NoDup (name <$> gs) ->
  (forall g, g ∈ gs -> exists v0, vars !! name g = Some v0 /\ upBound v0 = 0) ->
  forall g, g ∈ gs ->
    exists v, vars' !! name g = Some v /\ upBound v = energy_bound date block g.
Proof.
  revert vars. induction gs as [|g gs IH]; intros vars Hout Hnodup Hvars g' Hin.
  { by apply elem_of_nil in Hin. }
  simpl in Hout, Hnodup. apply NoDup_cons in Hnodup as [Hfresh Hnodup].
  unfold energy_bound.
  destruct (preloaded_generators !! Code g) as [data|] eqn:Hdata.
  - rewrite outcome_bind in Hout.
    destruct (outcome (loc_date_block data date block)) as [|p] eqn:Hp;
      [discriminate|].
    rewrite outcome_bind in Hout. unfold getitem in Hout.
    destruct (vars !! name g) as [v|] eqn:Hv; [|discriminate]. simpl in Hout.
    apply elem_of_cons in Hin as [->|Hin].
    + rewrite (set_upBounds_other _ _ _ _ _ _ Hout Hfresh), lookup_insert_eq.
      eexists. split; [reflexivity|]. simpl. by rewrite Hdata, Hp.
    + apply (IH _ Hout Hnodup); [|done].
      intros g'' Hin''. destruct (Hvars g'' ltac:(by right)) as (v0 & Hv0 & Hup).
      exists v0. split; [|done]. rewrite lookup_insert_ne; [done|].
      intros Heq. apply Hfresh. rewrite Heq. by apply list_elem_of_fmap_2.
  - apply elem_of_cons in Hin as [->|Hin].
    + rewrite (set_upBounds_other _ _ _ _ _ _ Hout Hfresh).
      destruct (Hvars g ltac:(by left)) as (v0 & Hv0 & Hup).
      exists v0. by rewrite Hdata.
    + apply (IH _ Hout Hnodup); [|done].
      intros g'' Hin''. apply Hvars. by right.
Qed.

Lemma Forall2_impl_elem {A B} (P R : A -> B -> Prop) (l : list A) (k : list B) :
  Forall2 P l k ->
  (forall a b, a ∈ l -> P a b -> R a b) ->
  Forall2 R l k.
Proof.
  induction 1 as [|a b l k Hab _ IH]; intros Himpl; constructor.
  - apply Himpl; [by left | done].
  - apply IH. intros a' b' Hin. apply Himpl. by right.
Qed.

Lemma sum_Q_nonneg (l : list Q) : Forall (fun x => 0 <= x) l -> 0 <= sum_Q l.
Proof.
  induction 1 as [|x l Hx _ IH]; [by rewrite sum_Q_nil|].
  rewrite sum_Q_cons. lra.
Qed.

Lemma sum_Q_le {A} (f : A -> Q) (l : list A) (vs : list Q) :
  Forall2 (fun a v => v <= f a) l vs -> sum_Q vs <= sum_Q (f <$> l).
Proof.
  induction 1 as [|a v l vs Hv _ IH]; [by rewrite sum_Q_nil|].
  rewrite fmap_cons, !sum_Q_cons. lra.
Qed.

Lemma detail_kwh_zip_with (vs : list Q) (gs : list Generator) :
  length vs = length gs ->
  detail_kwh <$> zip_with (fun v g => {| detail_code := Code g; detail_kwh := v;
                                         detail_inr := v * variable_cost g |}) vs gs
  = vs.
Proof.
  revert gs. induction vs as [|v vs IH]; intros [|g gs] Hlen; try done.
  simpl. f_equal. apply IH. by injection Hlen.
Qed.

(** The log of an optimiser call that returns: the solver call, followed by
    the error line when the status is not optimal. *)
Lemma optimize_available_generators_log rem date block gens prob vars res :
  outcome (optimize_available_generators rem date block gens prob vars) = inr res ->
  exists vars' status sol,
    outcome (set_upBounds (available gens) date block vars) = inr vars' /\
    solver {| objective := name <$> available gens;
              constraints := constraints prob ++ [(name <$> available gens, rem)] |}
           vars' = Some (status, sol) /\
    events (optimize_available_generators rem date block gens prob vars)
    = Solve {| objective := name <$> available gens;
               constraints := constraints prob ++ [(name <$> available gens, rem)] |}
            vars'
      :: (if decide (status = LpStatusOptimal) then []
          else [LogError NoFeasibleSolution]).
Proof.
  unfold optimize_available_generators.
  rewrite outcome_bind, events_bind, set_upBounds_events.
  destruct (outcome (set_upBounds _ _ _ _)) as [|vars']; [discriminate|].
  rewrite outcome_bind, events_bind, lpSum_events.
  destruct (outcome (lpSum _ _)) as [|obj] eqn:Hobj; [discriminate|].
  rewrite outcome_bind, events_bind, lpSum_events, Hobj.
  apply lpSum_outcome in Hobj as ->.
  rewrite outcome_bind, events_bind, outcome_log, events_log.
  destruct (solver _ vars') as [[status sol]|] eqn:Hsolve; [|discriminate].
  intros Hres. exists vars', status, sol. split; [done|]. split; [done|]. simpl.
  f_equal. destruct (decide (status = LpStatusOptimal)).
  - rewrite events_bind, varValues_events.
    by destruct (outcome (varValues _ _)).
  - reflexivity.
Qed.

Lemma process_block_success_events demand date block gens r mp mc md :
  outcome (process_block demand date block gens) = inr (Some r) ->
  outcome (calculate_must_run_power gens date block) = inr (mp, mc, md) ->
  events (process_block demand date block gens)
  = events (optimize_available_generators (net_demand date block demand - mp)
              date block gens (setup_optimization_problem gens).1
              (setup_optimization_problem gens).2).
Proof.
  intros Hr Hmr. revert Hr.
  rewrite process_block_unfold, outcome_try_except, events_try_except.
  rewrite !outcome_bind, !events_bind.
  rewrite (optimize_power_for_demand_cases _ _ _ _ _ _ _ _ _ Hmr). cbv zeta.
  destruct (Qltb _ 0); [discriminate|].
  destruct (lookup_entry date block df_grid_cost); [|discriminate].
  destruct (Qltb 0 _); [|discriminate].
  rewrite outcome_bind, events_bind.
  destruct (outcome (optimize_available_generators _ _ _ _ _ _))
    as [|[[am ac] ad]]; [discriminate|].
  simpl. intros _. by rewrite !app_nil_r.
Qed.

(** The solver call behind a result: its program, its answer, the log it
    leaves, and what the result is made of for an answer that is optimal
    and for one that is not. *)
Lemma process_block_status demand date block gens r :
  outcome (process_block demand date block gens) = inr (Some r) ->
  exists mp mc md vars' status sol,
    outcome (calculate_must_run_power gens date block) = inr (mp, mc, md) /\
    0 < net_demand date block demand - mp /\
    outcome (set_upBounds (available gens) date block
               (setup_optimization_problem gens).2) = inr vars' /\
    solver {| objective := name <$> available gens;
              constraints := [(name <$> available gens,
                               net_demand date block demand - mp)] |} vars'
      = Some (status, sol) /\
    events (process_block demand date block gens)
    = Solve {| objective := name <$> available gens;
               constraints := [(name <$> available gens,
                                net_demand date block demand - mp)] |} vars'
      :: (if decide (status = LpStatusOptimal) then []
          else [LogError NoFeasibleSolution]) /\
    r_Demand r = net_demand date block demand /\
    r_Must_Run_Generators_Used r = mp /\
    r_Must_Run_Generator_Details r = md /\
    (status <> LpStatusOptimal ->
     r_Available_Generators_Used r = 0 /\
     r_Available_Generator_Details r = [] /\
     r_Grid_Consumption r == net_demand date block demand - mp /\
     r_Total_Cost r == mc + (net_demand date block demand - mp) * r_Grid_Rate r) /\
    (status = LpStatusOptimal ->
     exists vs,
       Forall2 (fun g v => sol !! name g = Some v) (available gens) vs /\
       r_Available_Generators_Used r = sum_Q vs /\
       r_Available_Generator_Details r
       = zip_with (fun v g => {| detail_code := Code g; detail_kwh := v;
                                 detail_inr := v * variable_cost g |})
                  vs (available gens) /\
       r_Grid_Consumption r
       = (if Qltb (sum_Q vs) (net_demand date block demand - mp)
          then net_demand date block demand - mp - sum_Q vs else 0)).
Proof.
  intros Hr. pose proof Hr as Hr'.
  apply process_block_success in Hr'
    as (mp & mc & md & gc & am & ac & ad & Hmr & _ & Hpos & Hopt
        & _ & _ & Hd & Hmp & Ham & Hgrid & Hcost & Hrate & _ & _ & Hmd & Had).
  cbv zeta in *.
  rewrite setup_optimization_problem_prob in Hopt.
  destruct (optimize_available_generators_log _ _ _ _ _ _ _ Hopt)
    as (vars' & status & sol & Hset & Hsolve & Hev).
  simpl in Hsolve, Hev.
  exists mp, mc, md, vars', status, sol.
  split; [done|]. split; [done|]. split; [done|]. split; [done|]. split.
  { rewrite (process_block_success_events _ _ _ _ _ _ _ _ Hr Hmr).
    by rewrite setup_optimization_problem_prob. }
  split; [done|]. split; [done|]. split; [done|].
  apply optimize_available_generators_result in Hopt
    as (vars'' & status' & sol' & Hset' & Hsolve' & Hcases).
  rewrite Hset in Hset'. injection Hset' as <-.
  simpl in Hsolve'. rewrite Hsolve in Hsolve'. injection Hsolve' as <- <-.
  split.
  - intros Hstatus.
    destruct Hcases as [(_ & -> & -> & ->)|(-> & _)]; [|done].
    assert (Hlt : Qltb 0 (net_demand date block demand - mp) = true)
      by (by apply Qltb_lt).
    rewrite Hlt in Hgrid, Hcost.
    rewrite Ham, Had, Hgrid, Hcost, Hrate.
    split; [done|]. split; [done|]. split; lra.
  - intros ->. destruct Hcases as [(Hno & _)|(_ & vs & Hvs & -> & _ & ->)]; [done|].
    exists vs. by rewrite Ham, Had, Hgrid.
Qed.

(** C8, as the code has it.  The decision variables are keyed by the
    generators' names, and a program without an optimal solution yields a
    dispatch of 0.  For a solver whose optimal solutions keep the upper
    bounds of the variables and the constraint, and available generators
    with pairwise distinct names, every result that [process_block] returns
    has these properties.  The total energy of the available generators is
    the sum of the per-generator energies and is at most the remaining
    demand passed to the optimiser.  When the solver has reported an
    optimal solution, each available generator's dispatched energy is at
    most its availability-derived bound (0 without a series) and the total
    is at most the sum of the bounds.  When it has not, which the log
    shows, no dispatch is reported per generator and the total is 0. *)
Theorem available_dispatch_bounded
    (demand : Q) (date : Date) (block : Z) (gens : list Generator) (r : BlockResult) :
  keeps_upper_bounds solver ->
  NoDup (name <$> available gens) ->
  outcome (process_block demand date block gens) = inr (Some r) ->
  r_Available_Generators_Used r
    = sum_Q (detail_kwh <$> r_Available_Generator_Details r) /\
  r_Available_Generators_Used r
    <= net_demand date block demand - r_Must_Run_Generators_Used r /\
  (LogError NoFeasibleSolution ∉ events (process_block demand date block gens) ->
   Forall2 (fun g d => detail_code d = Code g /\
                       detail_kwh d <= energy_bound date block g)
           (available gens) (r_Available_Generator_Details r) /\
   r_Available_Generators_Used r
     <= sum_Q (energy_bound date block <$> available gens)) /\
  (LogError NoFeasibleSolution ∈ events (process_block demand date block gens) ->
   r_Available_Generator_Details r = [] /\
   r_Available_Generators_Used r = 0).
Proof.
  intros Hcap Hnodup Hr.
  destruct (process_block_status _ _ _ _ _ Hr)
    as (mp & mc & md & vars' & status & sol & _ & Hpos & Hset & Hsolve & Hev
        & _ & -> & _ & Hnot & Hopt).
  rewrite Hev. destruct (decide (status = LpStatusOptimal)) as [->|Hstatus].
  - destruct (Hopt eq_refl) as (vs & Hvs & -> & -> & _).
    apply Hcap in Hsolve as [Hbounds Hcons]. simpl in Hcons.
    assert (Hlen : length vs = length (available gens))
      by (symmetry; by eapply Forall2_length).
    assert (Hvars : forall g, g ∈ available gens ->
              exists v, vars' !! name g = Some v /\
                        upBound v = energy_bound date block g).
    { apply (set_upBounds_lookup _ _ _ _ _ Hset Hnodup).
      intros g Hg. exists {| lowBound := 0; upBound := 0 |}. split; [|reflexivity].
      apply setup_optimization_problem_vars.
      by apply list_elem_of_filter in Hg as [_ Hg]. }
    assert (Hvs' : Forall2 (fun g v => v <= energy_bound date block g)
                           (available gens) vs).
    { eapply Forall2_impl_elem; [exact Hvs|]. simpl. intros g v Hg Hv.
      destruct (Hvars g Hg) as (var & Hvar & <-).
      destruct (Hbounds (name g)) as (var' & v' & Hvar' & Hv' & Hup).
      { unfold problem_variables. simpl. apply elem_of_app. left.
        by apply list_elem_of_fmap_2. }
      congruence. }
    split; [by rewrite detail_kwh_zip_with|]. split.
    { rewrite (Forall2_value_of _ _ _ Hvs).
      apply Hcons. by apply list_elem_of_singleton. }
    split; [|intros Hin; absent_event Hin].
    intros _. split; [|by apply sum_Q_le].
    clear -Hvs'. induction Hvs' as [|g v gs vs Hv _ IH]; simpl; constructor; auto.
  - destruct (Hnot Hstatus) as (-> & -> & _).
    split; [done|]. split; [lra|]. split; [|done].
    intros Hout. destruct Hout. right. by left.
Qed.

End DispatchFacts.

(** ** Contracts of a solver *)

Lemma sound_keeps_upper_bounds (solver : Solver) :
  sound solver -> keeps_upper_bounds solver.
Proof.
  intros Hsound prob vars sol [Hbounds Hcons]%Hsound. split; [|done].
  intros x (var & v & Hvar & Hv & _ & Hup)%Hbounds. by exists var, v.
Qed.

(** ** The reference solver keeps the contract *)

Lemma scale_range total rhs : 0 <= rhs -> 0 <= scale total rhs /\ scale total rhs <= 1.
Proof.
  intros Hrhs. unfold scale.
  destruct (Qle_bool total rhs) eqn:Hle; [lra|].
  assert (Hlt : rhs < total).
  { apply Qnot_le_lt. intros H%Qle_bool_iff. congruence. }
  split.
  - apply Qle_shift_div_l; lra.
  - apply Qle_shift_div_r; lra.
Qed.

Lemma scale_total total rhs : 0 <= rhs -> scale total rhs * total <= rhs.
Proof.
  intros Hrhs. unfold scale.
  destruct (Qle_bool total rhs) eqn:Hle.
  - apply Qle_bool_iff in Hle. lra.
  - assert (Hlt : rhs < total).
    { apply Qnot_le_lt. intros H%Qle_bool_iff. congruence. }
    assert (Heq : rhs / total * total == rhs) by (field; lra).
    rewrite Heq. lra.
Qed.

Lemma sum_Q_scaled {A} (f g : A -> Q) (t : Q) (l : list A) :
  (forall a, a ∈ l -> f a == t * g a) ->
  sum_Q (f <$> l) == t * sum_Q (g <$> l).
Proof.
  induction l as [|a l IH]; intros Hfg.
  - rewrite !fmap_nil, sum_Q_nil. lra.
  - rewrite !fmap_cons, !sum_Q_cons, IH, (Hfg a).
    + lra.
    + by left.
    + intros a' Ha'. apply Hfg. by right.
Qed.

Lemma proportional_fill_lookup vars lhs rhs x var :
  x ∈ lhs ->
  vars !! x = Some var ->
  proportional_fill vars lhs rhs !! x
    = Some (scale (sum_Q (upBound_of vars <$> lhs)) rhs * upBound var).
Proof.
  intros Hx Hvar. unfold proportional_fill.
  rewrite lookup_fmap.
  by rewrite (proj2 (map_lookup_filter_Some _ vars x var) (conj Hvar Hx)).
Qed.

Lemma bounds_admit_zero_spec vars x :
  bounds_admit_zero vars x = true ->
  exists var, vars !! x = Some var /\ lowBound var <= 0 /\ 0 <= upBound var.
Proof.
  unfold bounds_admit_zero. destruct (vars !! x) as [var|]; [|discriminate].
  intros [Hlow Hup]%andb_true_iff. exists var.
  by rewrite <- !Qle_bool_iff.
Qed.

Lemma reference_solver_sound : sound reference_solver.
Proof.
  intros prob vars sol. unfold reference_solver.
  destruct (constraints prob) as [|[lhs rhs] [|]] eqn:Hcons; try discriminate.
  case_bool_decide as Hobj; [|discriminate].
  destruct (forallb (bounds_admit_zero vars) lhs) eqn:Hall.
  2:{ destruct (existsb _ _); discriminate. }
  destruct (Qle_bool 0 rhs) eqn:Hrhs; [|discriminate].
  intros [= <-]. apply Qle_bool_iff in Hrhs.
  assert (Hvar : forall x, x ∈ lhs ->
            exists var, vars !! x = Some var /\ lowBound var <= 0 /\ 0 <= upBound var).
  { intros x Hx. apply bounds_admit_zero_spec.
    rewrite forallb_forall in Hall. apply Hall. by apply list_elem_of_In. }
  destruct (scale_range (sum_Q (upBound_of vars <$> lhs)) rhs Hrhs) as [Ht0 Ht1].
  split.
  - intros x Hx.
    assert (Hx' : x ∈ lhs).
    { unfold problem_variables in Hx. rewrite Hcons, <- Hobj in Hx. simpl in Hx.
      rewrite app_nil_r in Hx. by apply elem_of_app in Hx as [?|?]. }
    destruct (Hvar x Hx') as (var & Hlook & Hlow & Hup).
    exists var, (scale (sum_Q (upBound_of vars <$> lhs)) rhs * upBound var).
    split; [done|]. split; [by apply proportional_fill_lookup|]. split; nra.
  - intros lhs' rhs'. rewrite Hcons.
    intros [= -> ->]%list_elem_of_singleton.
    rewrite (sum_Q_scaled _ (upBound_of vars)
               (scale (sum_Q (upBound_of vars <$> lhs)) rhs)).
    + by apply scale_total.
    + intros x Hx. destruct (Hvar x Hx) as (var & Hlook & _).
      unfold value_of, upBound_of.
      rewrite (proportional_fill_lookup _ _ _ _ _ Hx Hlook), Hlook. reflexivity.
Qed.

(** ** The scheduler and the report *)

Lemma report_rows_Forall2 results report :
  report_rows results = inr report <->
  Forall2 (fun r x => report_row r = inr x) results report.
Proof.
  revert report. induction results as [|r results IH]; intros report; simpl.
  - split; [intros [= <-]; constructor | intros H; by inversion H].
  - split.
    + destruct (report_row r) as [|x] eqn:Hx; [discriminate|].
      destruct (report_rows results) as [|xs]; [discriminate|].
      intros [= <-]. constructor; [done | by apply IH].
    + intros H. inversion H as [|r' x rs xs Hx Hxs]; subst.
      apply IH in Hxs. by rewrite Hx, Hxs.
Qed.


Section SchedulerFacts.

Variable preloaded_generators : gmap string DataFrame.
Variables df_grid_cost df_oa df_bank : DataFrame.
Variable solver : Solver.
Variable df_demand : DataFrame.
Variable df_generators : list Generator.

Local Abbreviation calculate_must_run_power :=
  (calculate_must_run_power preloaded_generators).
Local Abbreviation process_block :=
  (process_block preloaded_generators df_grid_cost df_oa df_bank solver).
Local Abbreviation net_demand := (net_demand df_oa df_bank).
Local Abbreviation future_result :=
  (future_result preloaded_generators df_grid_cost df_oa df_bank solver df_generators).
Local Abbreviation completed_result :=
  (completed_result preloaded_generators df_grid_cost df_oa df_bank solver
     df_generators).
Local Abbreviation collect :=
  (collect preloaded_generators df_grid_cost df_oa df_bank solver df_generators).
Local Abbreviation run_normal :=
  (run_normal preloaded_generators df_grid_cost df_oa df_bank solver df_demand
     df_generators).

Lemma future_result_never_raises job :
  exists result, future_result job = inr result.
Proof.
  destruct job as [[demand date] block]. apply process_block_never_raises.
Qed.

Lemma collect_completed futures completed :
  collect futures completed = inr (omap (completed_result futures) completed).
Proof.
  induction completed as [|i completed IH]; simpl; [reflexivity|].
  unfold completed_result at 1.
  destruct (futures !! i) as [job|]; simpl; [|exact IH].
  destruct (future_result_never_raises job) as [result Hresult].
  rewrite Hresult, IH. by destruct result.
Qed.

Lemma collect_from_futures futures completed results r :
  collect futures completed = inr results ->
  r ∈ results ->
  exists job, job ∈ futures /\ future_result job = inr (Some r).
Proof.
  rewrite collect_completed. intros [= <-].
  intros (i & _ & Hr)%list_elem_of_omap. unfold completed_result in Hr.
  destruct (futures !! i) as [job|] eqn:Hjob; [|discriminate]. simpl in Hr.
  exists job. split; [by eapply list_elem_of_lookup_2|].
  destruct (future_result job) as [|[r'|]]; try discriminate.
  by injection Hr as ->.
Qed.

(** C4.  When the net demand less the must-run energy is negative,
    [process_block] returns no result, the solver is never called, and the
    negative remainder is logged as it is (it is not replaced by 0).  So no
    row of any report stems from that block: each result that the scheduler
    collects comes from another submission. *)
Theorem negative_remaining_demand_fails
    (demand : Q) (date : Date) (block : Z) (mp mc : Q) (md : list Detail) :
  outcome (calculate_must_run_power df_generators date block) = inr (mp, mc, md) ->
  net_demand date block demand - mp < 0 ->
  let run := process_block demand date block df_generators in
  outcome run = inr None /\
  (forall p v, Solve p v ∉ events run) /\
  LogError (InvalidRemainingDemand (net_demand date block demand - mp)) ∈ events run /\
  (forall futures completed results r,
     collect futures completed = inr results ->
     r ∈ results ->
     exists job, job ∈ futures /\ job <> (demand, date, block) /\
                 future_result job = inr (Some r)).
Proof.
  intros Hmr Hneg run. unfold run.
  rewrite (process_block_negative _ _ _ _ _ _ _ _ _ _ _ _ Hmr Hneg).
  split; [reflexivity|]. split; [intros p v Hin; absent_event Hin|].
  split; [apply elem_of_cons; by left|].
  intros futures completed results r Hcollect Hr.
  destruct (collect_from_futures _ _ _ _ Hcollect Hr) as (job & Hjob & Hres).
  exists job. split; [done|]. split; [|done].
  intros ->. unfold future_result in Hres.
  rewrite (process_block_negative _ _ _ _ _ _ _ _ _ _ _ _ Hmr Hneg) in Hres.
  discriminate.
Qed.


End SchedulerFacts.

(** ** Cost and the derived column of successful blocks *)

Section ResultFacts.

Variable preloaded_generators : gmap string DataFrame.
Variables df_grid_cost df_oa df_bank : DataFrame.
Variable solver : Solver.

Local Abbreviation process_block :=
  (process_block preloaded_generators df_grid_cost df_oa df_bank solver).
Local Abbreviation net_demand := (net_demand df_oa df_bank).

(** The total cost of a result is the must-run cost, the cost of the
    available generators and the grid energy at the grid rate. *)
Lemma total_cost_decomposition demand date block gens r :
  outcome (process_block demand date block gens) = inr (Some r) ->
  exists mp mc md am ac ad,
    outcome (calculate_must_run_power preloaded_generators gens date block)
      = inr (mp, mc, md) /\
    outcome (optimize_available_generators preloaded_generators solver
               (net_demand date block demand - mp) date block gens
               (setup_optimization_problem gens).1
               (setup_optimization_problem gens).2) = inr (am, ac, ad) /\
    r_Total_Cost r == mc + ac + r_Grid_Consumption r * r_Grid_Rate r.
Proof.
  intros Hr.
  apply process_block_success in Hr
    as (mp & mc & md & gc & am & ac & ad & Hmr & _ & _ & Hopt
        & _ & _ & _ & _ & _ & -> & -> & -> & _).
  exists mp, mc, md, am, ac, ad. split; [done|]. split; [done|].
  cbv zeta. destruct (Qltb am _); lra.
Qed.

Lemma net_demand_value date block demand :
  net_demand date block demand ==
  (demand - (adjust_demand_with_open_access date block demand df_oa).2
   + (adjust_demand_with_bank date block
        (adjust_demand_with_open_access date block demand df_oa).1 df_bank).2)
  * DEMAND_CONVERSION_FACTOR.
Proof.
  unfold net_demand.
  rewrite adjust_demand_with_open_access_entry.
  destruct (lookup_entry date block df_oa) as [oa|]; simpl;
    rewrite adjust_demand_with_bank_entry;
    destruct (lookup_entry date block df_bank) as [bank|]; simpl; lra.
Qed.

(** The [Demand] column of a result holds the net demand, so the derived
    column takes the adjustments off a second time. *)
Lemma report_row_columns demand date block gens r x :
  outcome (process_block demand date block gens) = inr (Some r) ->
  report_row r = inr x ->
  let oa := (adjust_demand_with_open_access date block demand df_oa).2 in
  let bank := (adjust_demand_with_bank date block
                 (adjust_demand_with_open_access date block demand df_oa).1
                 df_bank).2 in
  c_Demand x = net_demand date block demand /\
  c_Net_Demand x == (demand - 2 * oa + 2 * bank) * DEMAND_CONVERSION_FACTOR.
Proof.
  intros Hr Hx.
  apply process_block_success in Hr
    as (mp & mc & md & gc & am & ac & ad & _ & _ & _ & _
        & _ & _ & Hdemand & _ & _ & _ & _ & _ & Hoa & Hbank & _).
  unfold report_row in Hx. rewrite Hoa, Hbank in Hx. injection Hx as <-.
  cbv zeta in *. simpl. split; [done|].
  rewrite Hdemand, net_demand_value. lra.
Qed.

End ResultFacts.

(** ** Sample runs *)

Module Runs.
Import Example1.

Lemma run_result : outcome run = inr (Some result).
Proof. vm_compute. reflexivity. Qed.

(** The end-to-end example: must-run energy 25, available energy 50, grid
    energy 24925 and a total cost of 124825. *)
Example end_to_end :
  r_Must_Run_Generators_Used result == 25 /\
  r_Available_Generators_Used result == 50 /\
  r_Grid_Consumption result == 24925 /\
  r_Total_Cost result == 124825.
Proof. repeat split. Qed.

Lemma conservation_witness :
  sound reference_solver /\
  outcome run = inr (Some result) /\
  r_Must_Run_Generators_Used result + r_Available_Generators_Used result
    + r_Grid_Consumption result
  == net_demand empty_table empty_table D 1 100.
Proof.
  split; [exact reference_solver_sound|].
  split; [vm_compute; reflexivity|].
  apply (conservation preloaded grid empty_table empty_table reference_solver
           100 D 1 [A; B] result reference_solver_sound).
  vm_compute. reflexivity.
Defined.

(** C2, as stated, fails where a must-run generator has no series: the
    block of [C] and [B] succeeds, and [C] adds nothing to it. *)
Lemma must_run_without_series_succeeds :
  C ∈ [C; B] /\ Type_of_Plant C = MUST_RUN_TYPE /\ preloaded !! Code C = None /\
  outcome run_no_series = inr (Some result_no_series) /\
  r_Must_Run_Generators_Used result_no_series = 0 /\
  r_Must_Run_Generator_Details result_no_series = [].
Proof.
  split; [by left|]. split; [reflexivity|]. split; [vm_compute; reflexivity|].
  split; [vm_compute; reflexivity|]. split; reflexivity.
Defined.

Lemma must_run_without_data_point_fails_witness :
  no_data_point (series (1 # 10)) D 3 /\
  (exists e, (e = KeyError \/ e = IndexError) /\
     process_block preloaded grid empty_table empty_table reference_solver
       100 D 3 [A; B]
     = ([LogError (ErrorProcessingBlock 3 D e)], inr None)) /\
  calculate_must_run_power preloaded [C; A] D 1
  = calculate_must_run_power preloaded [A] D 1.
Proof.
  assert (Hno : no_data_point (series (1 # 10)) D 3) by (left; reflexivity).
  split; [exact Hno|]. split.
  - apply (proj1 (must_run_without_data_point_fails preloaded grid empty_table
                    empty_table reference_solver 100 D 3 [A; B])
             A (series (1 # 10))).
    + by left.
    + reflexivity.
    + vm_compute. reflexivity.
    + exact Hno.
  - apply (proj2 (must_run_without_data_point_fails preloaded grid empty_table
                    empty_table reference_solver 100 D 1 [C; A])
             [] C [A]).
    + reflexivity.
    + vm_compute. reflexivity.
Defined.

(** C3, as stated, fails where the available generators cover the whole
    remaining demand: the residual is 0, the rate table has no entry, and
    the block fails on the missing rate all the same. *)
Lemma missing_rate_fails_at_zero_residual :
  lookup_entry D 1 empty_table = None /\
  (exists mp mc md am ac ad,
     outcome (calculate_must_run_power preloaded_ample [A; B] D 1)
       = inr (mp, mc, md) /\
     outcome (optimize_available_generators preloaded_ample reference_solver
                (net_demand empty_table empty_table D 1 1 - mp) D 1 [A; B]
                (setup_optimization_problem [A; B]).1
                (setup_optimization_problem [A; B]).2) = inr (am, ac, ad) /\
     net_demand empty_table empty_table D 1 1 - mp - am == 0) /\
  LogError (ErrorLoadingGridCost ValueError) ∈ events run_no_rate /\
  outcome run_no_rate = inr None.
Proof.
  split; [reflexivity|]. split.
  - do 6 eexists. split; [vm_compute; reflexivity|].
    split; [vm_compute; reflexivity|]. vm_compute. reflexivity.
  - split; [|vm_compute; reflexivity].
    replace (events run_no_rate)
      with [LogError (ErrorLoadingGridCost ValueError);
            LogError (ErrorProcessingBlock 1 D TypeError)]
      by (vm_compute; reflexivity).
    by left.
Defined.

Lemma grid_rate_failure_iff_witness :
  (exists ev, ev ∈ events run_no_rate /\ is_grid_rate_error ev) /\
  outcome run_no_rate = inr None.
Proof.
  destruct (grid_rate_failure_iff preloaded_ample empty_table empty_table
              empty_table reference_solver 1 D 1 [A; B]) as [[_ Hif] Hthen].
  assert (Hfails : exists ev, ev ∈ events run_no_rate /\ is_grid_rate_error ev).
  { apply Hif. do 3 eexists. split; [vm_compute; reflexivity|].
    split; [vm_compute; discriminate | reflexivity]. }
  split; [exact Hfails | apply (Hthen Hfails)].
Defined.

Lemma negative_remaining_demand_fails_witness :
  outcome (calculate_must_run_power preloaded [A; B] D 1)
    = inr (1000 # 40, 2000 # 40,
           [{| detail_code := "A"; detail_kwh := 1000 # 40;
               detail_inr := 2000 # 40 |}]) /\
  net_demand empty_table empty_table D 1 0 - (1000 # 40) < 0 /\
  outcome (process_block preloaded grid empty_table empty_table reference_solver
             0 D 1 [A; B]) = inr None.
Proof.
  assert (H1 : outcome (calculate_must_run_power preloaded [A; B] D 1)
    = inr (1000 # 40, 2000 # 40,
           [{| detail_code := "A"; detail_kwh := 1000 # 40;
               detail_inr := 2000 # 40 |}])) by (vm_compute; reflexivity).
  assert (H2 : net_demand empty_table empty_table D 1 0 - (1000 # 40) < 0)
    by (vm_compute; reflexivity).
  split; [exact H1|]. split; [exact H2|].
  apply (negative_remaining_demand_fails preloaded grid empty_table empty_table
           reference_solver [A; B] 0 D 1 _ _ _ H1 H2).
Defined.

Lemma missing_entry_is_zero_entry_witness :
  lookup_entry D 1 empty_table = None /\
  lookup_entry D 1 (table 0) = Some 0 /\
  (adjust_demand_with_open_access D 1 100 empty_table).1
  == (adjust_demand_with_open_access D 1 100 (table 0)).1 /\
  (adjust_demand_with_open_access D 1 100 empty_table).2 = 0.
Proof.
  split; [reflexivity|]. split; [reflexivity|].
  destruct (missing_entry_is_zero_entry D 1 100 empty_table (table 0) 0
              eq_refl eq_refl (Qeq_refl 0)) as [(H1 & H2 & _) _].
  split; [exact H1 | exact H2].
Defined.



(** C7 at a block with open access.  Raw demand 100 and open access 10:
    the demand adjuster's net demand is 22500 kWh.  The [Demand] column of
    the report holds that net demand, not the raw demand, and the derived
    net-demand column takes the open access off once more: 20000 kWh. *)
Theorem net_demand_column_at_open_access :
  run_normal preloaded grid (table 10) empty_table reference_solver demand [A; B]
    D D 1 1 [0%nat] = inr report_oa /\
  net_demand (table 10) empty_table D 1 100 == 22500 /\
  (100 - 10 + 0) * DEMAND_CONVERSION_FACTOR == 22500 /\
  exists row,
    report_oa = [row] /\
    c_OA_Used row == 10 /\ c_Bank_Adjustment row == 0 /\
    c_Demand row == 22500 /\ ~ c_Demand row == 100 /\
    c_Net_Demand row == 20000 /\
    ~ c_Net_Demand row == net_demand (table 10) empty_table D 1 100.
Proof.
  split; [vm_compute; reflexivity|]. split; [reflexivity|]. split; [reflexivity|].
  eexists. split; [reflexivity|]. simpl.
  repeat split; try reflexivity; vm_compute; discriminate.
Qed.

(** C8, as stated, fails for two available generators under one name.
    They share a decision variable, whose bound is the one set last: [B1]
    has a bound of 250 kWh and is dispatched 500. *)
Lemma dispatch_above_bound :
  sound reference_solver /\
  outcome run_same_name = inr (Some result_same_name) /\
  exists d1 d2,
    r_Available_Generator_Details result_same_name = [d1; d2] /\
    detail_code d1 = Code B1 /\
    energy_bound preloaded_same_name D 1 B1 == 250 /\
    detail_kwh d1 == 500 /\
    ~ detail_kwh d1 <= energy_bound preloaded_same_name D 1 B1.
Proof.
  split; [exact reference_solver_sound|].
  split; [vm_compute; reflexivity|].
  do 2 eexists. split; [reflexivity|]. split; [reflexivity|].
  split; [vm_compute; reflexivity|]. split; [reflexivity|].
  vm_compute. intros H. by apply H.
Defined.

Lemma available_dispatch_bounded_witness :
  keeps_upper_bounds reference_solver /\
  NoDup (name <$> filter (fun g => Type_of_Plant g = AVAILABLE_TYPE) [A; B]) /\
  outcome run = inr (Some result) /\
  (LogError NoFeasibleSolution ∉ events run) /\
  r_Available_Generators_Used result
    <= sum_Q (energy_bound preloaded D 1
                <$> filter (fun g => Type_of_Plant g = AVAILABLE_TYPE) [A; B]) /\
  r_Available_Generators_Used result
    <= net_demand empty_table empty_table D 1 100
       - r_Must_Run_Generators_Used result.
Proof.
  assert (Hcap : keeps_upper_bounds reference_solver)
    by (exact (sound_keeps_upper_bounds _ reference_solver_sound)).
  assert (Hnodup : NoDup (name <$> filter (fun g => Type_of_Plant g = AVAILABLE_TYPE)
                                     [A; B])).
  { apply (bool_decide_unpack _). vm_compute. exact I. }
  assert (Hrun : outcome run = inr (Some result)) by (vm_compute; reflexivity).
  assert (Hlog : LogError NoFeasibleSolution ∉ events run).
  { assert (Hev : exists p v, events run = [Solve p v]).
    { destruct (events run) as [|[m|p v] [|ev l]] eqn:Hev;
        try (vm_compute in Hev; discriminate Hev).
      by exists p, v. }
    destruct Hev as (p & v & ->). intros Hin. absent_event Hin. }
  split; [exact Hcap|]. split; [exact Hnodup|]. split; [exact Hrun|].
  split; [exact Hlog|].
  destruct (available_dispatch_bounded preloaded grid empty_table empty_table
              reference_solver 100 D 1 [A; B] result Hcap Hnodup Hrun)
    as (_ & Hrem & Hopt & _).
  split; [exact (proj2 (Hopt Hlog)) | exact Hrem].
Defined.

(** C10 at a remaining demand of 0.  A block without demand, and a block
    whose must-run energy is all of its net demand, have a grid rate and
    nothing left to dispatch.  [optimize_power_for_demand] reads
    [available_gen_details], which it has not assigned on this path; the
    [UnboundLocalError] is caught by [process_block], and the block has no
    result. *)
Theorem zero_remaining_demand_has_no_result :
  process_block preloaded grid empty_table empty_table reference_solver
    0 D 1 [B]
  = ([LogError (ErrorProcessingBlock 1 D UnboundLocalError)], inr None) /\
  process_block preloaded grid empty_table empty_table reference_solver
    (1 # 10) D 1 [A; B]
  = ([LogError (ErrorProcessingBlock 1 D UnboundLocalError)], inr None).
Proof. split; vm_compute; reflexivity. Qed.

End Runs.

(** * Further properties *)

(** ** What a block logs *)

Section BlockLog.

Variable preloaded_generators : gmap string DataFrame.
Variables df_grid_cost df_oa df_bank : DataFrame.
Variable solver : Solver.

Local Abbreviation calculate_must_run_power :=
  (calculate_must_run_power preloaded_generators).
Local Abbreviation optimize_available_generators :=
  (optimize_available_generators preloaded_generators solver).
Local Abbreviation optimize_power_for_demand :=
  (optimize_power_for_demand preloaded_generators df_grid_cost solver).
Local Abbreviation process_block :=
  (process_block preloaded_generators df_grid_cost df_oa df_bank solver).
Local Abbreviation net_demand := (net_demand df_oa df_bank).

Lemma optimize_power_for_demand_events demand_kwh date block gens prob vars ev :
  ev ∈ events (optimize_power_for_demand demand_kwh date block gens prob vars) ->
  forall b d, ~ is_block_error b d ev.
Proof.
  intros Hin b d [e ->].
  destruct (outcome (calculate_must_run_power gens date block))
    as [e'|[[mp mc] md]] eqn:Hmr.
  { unfold optimize_power_for_demand in Hin.
    rewrite (calculate_must_run_power_eta _ _ _ _ _ Hmr) in Hin.
    absent_event Hin. }
  rewrite (optimize_power_for_demand_cases _ _ _ _ _ _ _ _ _ _ _ _ Hmr) in Hin.
  cbv zeta in Hin.
  destruct (Qltb _ 0); [absent_event Hin|].
  destruct (lookup_entry date block df_grid_cost); [|absent_event Hin].
  destruct (Qltb 0 _); [|absent_event Hin].
  rewrite events_bind in Hin. apply elem_of_app in Hin as [Hin|Hin].
  - apply optimize_available_generators_events in Hin as [(p & v & ?)|?];
      discriminate.
  - destruct (outcome (optimize_available_generators _ _ _ _ _ _))
      as [|[[am ac] ad]]; absent_event Hin.
Qed.

(** X1.  [process_block] lets no exception out.  It returns no result
    exactly when the last line of its log is the error line of its [except]
    clause, and it returns a result exactly when its log has no such
    line. *)
Theorem block_failure_is_logged
    (demand : Q) (date : Date) (block : Z) (gens : list Generator) :
  (exists result, outcome (process_block demand date block gens) = inr result) /\
  (outcome (process_block demand date block gens) = inr None <->
   exists e, last (events (process_block demand date block gens))
             = Some (LogError (ErrorProcessingBlock block date e))) /\
  ((exists r, outcome (process_block demand date block gens) = inr (Some r)) <->
   forall ev, ev ∈ events (process_block demand date block gens) ->
              ~ is_block_error block date ev).
Proof.
  split; [apply process_block_never_raises|].
  rewrite process_block_unfold, outcome_try_except, events_try_except.
  rewrite !outcome_bind, !events_bind.
  pose proof (optimize_power_for_demand_events
                (net_demand date block demand) date block gens
                (setup_optimization_problem gens).1
                (setup_optimization_problem gens).2) as Hev.
  destruct (outcome (optimize_power_for_demand _ _ _ _ _ _)) as [e|[r|]]; simpl.
  - rewrite app_nil_r. split.
    + split; [intros _; exists e; by rewrite last_snoc | done].
    + split; [by intros [r [=]]|]. intros Hnone. exfalso.
      apply (Hnone (LogError (ErrorProcessingBlock block date e)));
        [apply elem_of_app; right; by left | by exists e].
  - rewrite !app_nil_r. split.
    + split; [discriminate|]. intros [e Hlast].
      apply last_Some_elem_of in Hlast. by destruct (Hev _ Hlast block date); exists e.
    + split; [intros _ ev Hin; by apply Hev | intros _; by eexists].
  - rewrite app_nil_r. split.
    + split; [intros _; exists TypeError; by rewrite last_snoc | done].
    + split; [by intros [r [=]]|]. intros Hnone. exfalso.
      apply (Hnone (LogError (ErrorProcessingBlock block date TypeError)));
        [apply elem_of_app; right; by left | by exists TypeError].
Qed.

End BlockLog.

(** ** Energy and cost, line by line *)

Section Allocation.

Variable preloaded_generators : gmap string DataFrame.
Variables df_grid_cost df_oa df_bank : DataFrame.
Variable solver : Solver.

Local Abbreviation calculate_must_run_power :=
  (calculate_must_run_power preloaded_generators).
Local Abbreviation must_run_loop := (must_run_loop preloaded_generators).
Local Abbreviation energy_bound := (energy_bound preloaded_generators).
Local Abbreviation process_block :=
  (process_block preloaded_generators df_grid_cost df_oa df_bank solver).
Local Abbreviation net_demand := (net_demand df_oa df_bank).
Local Abbreviation with_series gens :=
  (filter (fun g => is_Some (preloaded_generators !! Code g)) gens).
Local Abbreviation must_run gens :=
  (filter (fun g => Type_of_Plant g = MUST_RUN_TYPE) gens).

(** A detail line of generator [g]: its code, its availability in kWh and
    that energy at its variable cost. *)
Local Abbreviation line_of date block :=
  (fun (g : Generator) (d : Detail) =>
     detail_code d = Code g /\
     detail_kwh d = energy_bound date block g /\
     detail_inr d = detail_kwh d * variable_cost g).

Lemma must_run_loop_result gs date block p c d p' c' d' :
  outcome (must_run_loop gs date block p c d) = inr (p', c', d') ->
  exists ds,
    d' = d ++ ds /\
    p' = foldl Qplus p (detail_kwh <$> ds) /\
    c' = foldl Qplus c (detail_inr <$> ds) /\
    Forall2 (line_of date block) (with_series gs) ds.
Proof.
  revert p c d. induction gs as [|g gs IH]; intros p c d; simpl.
  - intros [= <- <- <-]. exists []. by rewrite app_nil_r.
  - rewrite filter_cons.
    destruct (preloaded_generators !! Code g) as [data|] eqn:Hdata.
    + rewrite outcome_bind.
      destruct (outcome (loc_date_block data date block)) as [|pw] eqn:Hpw;
        [discriminate|].
      intros (ds & -> & -> & -> & Hds)%IH.
      eexists (_ :: ds). rewrite <- app_assoc. split; [reflexivity|].
      split; [reflexivity|]. split; [reflexivity|].
      destruct (decide (is_Some (Some data))) as [_|Hno];
        [|by destruct Hno; eexists].
      constructor; [|done]. unfold energy_bound. simpl. by rewrite Hdata, Hpw.
    + intros Hout. destruct (decide (is_Some None)) as [[? [=]]|_].
      by apply IH.
Qed.

(** X2.  The must-run allocation lists one detail line per must-run
    generator that has a series, in the order of the generator table; each
    line is written from the generator's availability for (date, block) in
    kWh and from that energy at the generator's variable cost, and the
    energy and cost returned are the sums over the lines. *)
Theorem must_run_totals
    (gens : list Generator) (date : Date) (block : Z)
    (mp mc : Q) (md : list Detail) :
  outcome (calculate_must_run_power gens date block) = inr (mp, mc, md) ->
  Forall2 (line_of date block) (with_series (must_run gens)) md /\
  mp = sum_Q (detail_kwh <$> md) /\
  mc = sum_Q (detail_inr <$> md) /\
  mp = sum_Q (energy_bound date block <$> with_series (must_run gens)).
Proof.
  intros (ds & -> & -> & -> & Hds)%must_run_loop_result. simpl.
  split; [done|]. split; [done|]. split; [done|].
  unfold sum_Q. f_equal. clear -Hds.
  induction Hds as [|g d gs ds (_ & Hkwh & _) _ IH]; [done|].
  rewrite !fmap_cons. by f_equal.
Qed.

Lemma detail_inr_zip_with (vs : list Q) (gs : list Generator) :
  detail_inr <$> zip_with (fun v g => {| detail_code := Code g; detail_kwh := v;
                                         detail_inr := v * variable_cost g |}) vs gs
  = zip_with (fun v g => v * variable_cost g) vs gs.
Proof.
  revert gs. induction vs as [|v vs IH]; intros [|g gs]; try done.
  simpl. by rewrite IH.
Qed.

(** X3.  The totals of a result are the totals of its detail lines: in
    every result, the must-run energy and the energy of the available
    generators are the sums of the energies that their detail lines are
    written from, and the total cost is the sum of the costs that all
    detail lines are written from plus the grid energy at the grid rate
    (the lines themselves print these numbers to two decimals, which is
    outside the model). *)
Theorem totals_match_details
    (demand : Q) (date : Date) (block : Z) (gens : list Generator) (r : BlockResult) :
  outcome (process_block demand date block gens) = inr (Some r) ->
  r_Must_Run_Generators_Used r
    = sum_Q (detail_kwh <$> r_Must_Run_Generator_Details r) /\
  r_Available_Generators_Used r
    = sum_Q (detail_kwh <$> r_Available_Generator_Details r) /\
  r_Total_Cost r
    == sum_Q (detail_inr <$> r_Must_Run_Generator_Details r)
       + sum_Q (detail_inr <$> r_Available_Generator_Details r)
       + r_Grid_Consumption r * r_Grid_Rate r.
Proof.
  intros Hr.
  apply process_block_success in Hr
    as (mp & mc & md & gc & am & ac & ad & Hmr & _ & _ & Hopt
        & _ & _ & _ & -> & -> & -> & -> & -> & _ & _ & -> & ->).
  cbv zeta in *.
  apply must_run_loop_result in Hmr as (ds & -> & -> & -> & _). simpl.
  apply optimize_available_generators_result in Hopt
    as (vars' & status & sol & _ & _
        & [(_ & -> & -> & ->)|(_ & vs & Hvs & -> & -> & ->)]).
  - split; [done|]. split; [done|]. fold (sum_Q (detail_inr <$> ds)).
    rewrite fmap_nil, sum_Q_nil. destruct (Qltb 0 _); lra.
  - split; [done|].
    rewrite detail_inr_zip_with, detail_kwh_zip_with
      by (symmetry; by eapply Forall2_length).
    split; [done|]. fold (sum_Q (detail_inr <$> ds)).
    destruct (Qltb _ _); lra.
Qed.

End Allocation.

(** ** When a block succeeds *)

Section Success.

Variable preloaded_generators : gmap string DataFrame.
Variables df_grid_cost df_oa df_bank : DataFrame.
Variable solver : Solver.

Local Abbreviation calculate_must_run_power :=
  (calculate_must_run_power preloaded_generators).
Local Abbreviation must_run_loop := (must_run_loop preloaded_generators).
Local Abbreviation set_upBounds := (set_upBounds preloaded_generators).
Local Abbreviation energy_bound := (energy_bound preloaded_generators).
Local Abbreviation optimize_available_generators :=
  (optimize_available_generators preloaded_generators solver).
Local Abbreviation process_block :=
  (process_block preloaded_generators df_grid_cost df_oa df_bank solver).
Local Abbreviation net_demand := (net_demand df_oa df_bank).
Local Abbreviation must_run gens :=
  (filter (fun g => Type_of_Plant g = MUST_RUN_TYPE) gens).
Local Abbreviation available gens :=
  (filter (fun g => Type_of_Plant g = AVAILABLE_TYPE) gens).

(** Every generator of the list that has a series has a data point for
    (date, block). *)
Local Abbreviation all_data_points gs date block :=
  (forall g data, g ∈ gs -> preloaded_generators !! Code g = Some data ->
                  ~ no_data_point data date block).

Lemma loc_date_block_data_point data date block :
  ~ no_data_point data date block ->
  exists pw, loc_date_block data date block = ([], inr pw).
Proof.
  unfold no_data_point, loc_date_block. intros Hno.
  destruct (has_column (LInt block) data); [|destruct Hno; by left].
  destruct (filter_date date data) as [|row rest]; [destruct Hno; by right|].
  by eexists.
Qed.

Lemma loc_date_block_inr data date block pw :
  outcome (loc_date_block data date block) = inr pw ->
  ~ no_data_point data date block.
Proof.
  intros Hpw Hno. apply loc_date_block_no_data_point in Hno.
  destruct Hno as [H|H]; rewrite H in Hpw; discriminate.
Qed.

Lemma must_run_loop_ok_iff gs date block p c d :
  (exists res, outcome (must_run_loop gs date block p c d) = inr res) <->
  all_data_points gs date block.
Proof.
  revert p c d. induction gs as [|g gs IH]; intros p c d; simpl.
  - split; [intros _ g data Hin; by apply elem_of_nil in Hin | by eexists].
  - destruct (preloaded_generators !! Code g) as [data|] eqn:Hdata.
    + rewrite outcome_bind. split.
      * destruct (outcome (loc_date_block data date block)) as [|pw] eqn:Hpw;
          [by intros [? [=]]|].
        intros Hrest. pose proof (proj1 (IH _ _ _) Hrest) as Hall.
        intros g' data' [->|Hin]%elem_of_cons Hdata'.
        -- assert (data' = data) as -> by congruence.
           by eapply loc_date_block_inr.
        -- by eapply Hall.
      * intros Hall.
        destruct (loc_date_block_data_point data date block) as [pw Hpw].
        { apply (Hall g); [by left | done]. }
        rewrite Hpw. simpl. apply IH.
        intros g' data' Hin. apply Hall. by right.
    + rewrite IH. split.
      * intros Hrest g' data' [->|Hin]%elem_of_cons Hdata'; [congruence|].
        by eapply Hrest.
      * intros Hall g' data' Hin. apply Hall. by right.
Qed.

Lemma set_upBounds_dom gs date block vars vars' x :
  outcome (set_upBounds gs date block vars) = inr vars' ->
  is_Some (vars !! x) -> is_Some (vars' !! x).
Proof.
  revert vars. induction gs as [|g gs IH]; intros vars; simpl.
  - by intros [= <-].
  - destruct (preloaded_generators !! Code g) as [data|]; [|apply IH].
    rewrite outcome_bind.
    destruct (outcome (loc_date_block data date block)); [discriminate|].
    rewrite outcome_bind. unfold getitem.
    destruct (vars !! name g) as [v|]; [|discriminate]. simpl.
    intros Hout Hx. apply (IH _ Hout). rewrite lookup_insert. by case_decide.
Qed.

Lemma set_upBounds_lowBound gs date block vars vars' :
  outcome (set_upBounds gs date block vars) = inr vars' ->
  (forall x v, vars !! x = Some v -> lowBound v = 0) ->
  forall x v, vars' !! x = Some v -> lowBound v = 0.
Proof.
  revert vars. induction gs as [|g gs IH]; intros vars; simpl.
  - by intros [= <-].
  - destruct (preloaded_generators !! Code g) as [data|]; [|apply IH].
    rewrite outcome_bind.
    destruct (outcome (loc_date_block data date block)); [discriminate|].
    rewrite outcome_bind. unfold getitem.
    destruct (vars !! name g) as [v|] eqn:Hv; [|discriminate]. simpl.
    intros Hout Hlow. apply (IH _ Hout).
    intros x v'. rewrite lookup_insert. case_decide.
    + intros [= <-]. simpl. by eapply Hlow.
    + apply Hlow.
Qed.

Lemma set_upBounds_inr gs date block vars vars' :
  outcome (set_upBounds gs date block vars) = inr vars' ->
  all_data_points gs date block.
Proof.
  revert vars. induction gs as [|g gs IH]; intros vars; simpl.
  - intros _ g data Hin. by apply elem_of_nil in Hin.
  - destruct (preloaded_generators !! Code g) as [data|] eqn:Hdata.
    + rewrite outcome_bind.
      destruct (outcome (loc_date_block data date block)) as [|pw] eqn:Hpw;
        [discriminate|].
      rewrite outcome_bind. unfold getitem.
      destruct (vars !! name g) as [v|]; [|discriminate]. simpl.
      intros Hout g' data' [->|Hin]%elem_of_cons Hdata'.
      * assert (data' = data) as -> by congruence.
        by eapply loc_date_block_inr.
      * by eapply IH.
    + intros Hout g' data' [->|Hin]%elem_of_cons Hdata'; [congruence|].
      by eapply IH.
Qed.

Lemma set_upBounds_ok gs date block vars :
  (forall g, g ∈ gs -> is_Some (vars !! name g)) ->
  all_data_points gs date block ->
  exists vars', outcome (set_upBounds gs date block vars) = inr vars'.
Proof.
  revert vars. induction gs as [|g gs IH]; intros vars Hdom Hall; simpl.
  - by eexists.
  - assert (Hall' : all_data_points gs date block).
    { intros g' data' Hin. apply Hall. by right. }
    destruct (preloaded_generators !! Code g) as [data|] eqn:Hdata.
    + destruct (loc_date_block_data_point data date block) as [pw Hpw].
      { apply (Hall g); [by left | done]. }
      rewrite Hpw. destruct (Hdom g ltac:(by left)) as [v Hv].
      unfold mbind at 1, M_bind at 1. unfold getitem. rewrite Hv.
      unfold mbind at 1, M_bind at 1, mret, M_ret.
      edestruct (IH (<[name g := {| lowBound := lowBound v;
                         upBound := pw * DEMAND_CONVERSION_FACTOR |}]> vars))
        as [vars' Hvars']; [|exact Hall'|].
      * intros g' Hg'. rewrite lookup_insert. case_decide; [done|].
        apply Hdom. by right.
      * exists vars'. destruct (set_upBounds _ _ _ _) as [l [e|vars'']]; simpl in *;
          congruence.
    + apply IH; [|done]. intros g' Hg'. apply Hdom. by right.
Qed.

Lemma lpSum_ok vars gs :
  (forall g, g ∈ gs -> is_Some (vars !! name g)) ->
  outcome (lpSum vars gs) = inr (name <$> gs).
Proof.
  induction gs as [|g gs IH]; intros Hdom; simpl; [reflexivity|].
  rewrite outcome_bind. unfold getitem at 1.
  destruct (Hdom g ltac:(by left)) as [v ->]. simpl.
  rewrite outcome_bind, IH; [reflexivity|].
  intros g' Hg'. apply Hdom. by right.
Qed.

Lemma varValues_ok (sol : gmap string Q) gs :
  (forall g, g ∈ gs -> is_Some (sol !! name g)) ->
  exists vs, outcome (varValues sol gs) = inr vs.
Proof.
  induction gs as [|g gs IH]; intros Hdom; simpl; [by eexists|].
  destruct (Hdom g ltac:(by left)) as [v ->].
  destruct IH as [vs Hvs]; [intros g' Hg'; apply Hdom; by right|].
  rewrite outcome_bind, Hvs. by eexists.
Qed.

(** With a solver that answers and keeps its contract, the optimiser call
    goes through exactly when every available generator with a series has
    its data point. *)
Lemma optimize_available_generators_ok_iff rem date block gens prob vars :
  sound solver -> responsive solver ->
  (forall g, g ∈ available gens -> is_Some (vars !! name g)) ->
  (exists res, outcome (optimize_available_generators rem date block gens prob vars)
               = inr res) <->
  all_data_points (available gens) date block.
Proof.
  intros Hsound Hresp Hdom. split.
  - intros [[[am ac] ad] Hres].
    apply optimize_available_generators_result in Hres as (vars' & _ & _ & Hset & _).
    by eapply set_upBounds_inr.
  - intros Hall. unfold optimize_available_generators.
    destruct (set_upBounds_ok _ date block vars Hdom Hall) as [vars' Hset].
    assert (Hdom' : forall g, g ∈ available gens -> is_Some (vars' !! name g)).
    { intros g Hg. eapply set_upBounds_dom; [exact Hset | by apply Hdom]. }
    rewrite outcome_bind, Hset, outcome_bind, (lpSum_ok _ _ Hdom').
    rewrite outcome_bind, (lpSum_ok _ _ Hdom'), outcome_bind, outcome_log.
    destruct (Hresp {| objective := name <$> available gens;
                       constraints := constraints prob
                                      ++ [(name <$> available gens, rem)] |} vars')
      as [[status sol] Hsolve].
    rewrite Hsolve.
    destruct (decide (status = LpStatusOptimal)) as [->|Hstatus].
    + apply Hsound in Hsolve as [Hbounds _].
      destruct (varValues_ok sol (available gens)) as [vs Hvs].
      { intros g Hg. destruct (Hbounds (name g)) as (var & v & _ & -> & _); [|done].
        unfold problem_variables. simpl. apply elem_of_app. left.
        by apply list_elem_of_fmap_2. }
      rewrite outcome_bind, Hvs. by eexists.
    + rewrite outcome_bind, outcome_log. by eexists.
Qed.

Lemma sum_energy_bound_with_series gs date block :
  sum_Q (energy_bound date block
           <$> filter (fun g => is_Some (preloaded_generators !! Code g)) gs)
  == sum_Q (energy_bound date block <$> gs).
Proof.
  induction gs as [|g gs IH]; [reflexivity|].
  rewrite filter_cons, fmap_cons, sum_Q_cons.
  destruct (decide (is_Some (preloaded_generators !! Code g))) as [_|Hnone].
  - rewrite fmap_cons, sum_Q_cons, IH. reflexivity.
  - rewrite IH. unfold energy_bound at 2.
    destruct (preloaded_generators !! Code g); [by destruct Hnone|]. lra.
Qed.

Lemma must_run_power_value gens date block mp mc md :
  outcome (calculate_must_run_power gens date block) = inr (mp, mc, md) ->
  mp == sum_Q (energy_bound date block <$> must_run gens).
Proof.
  intros (ds & _ & -> & _ & Hds)%must_run_loop_result.
  rewrite <- sum_energy_bound_with_series.
  fold (sum_Q (detail_kwh <$> ds)).
  assert (detail_kwh <$> ds
          = energy_bound date block
              <$> filter (fun g => is_Some (preloaded_generators !! Code g))
                         (must_run gens)) as ->; [|reflexivity].
  clear -Hds. induction Hds as [|g d gs ds (_ & Hkwh & _) _ IH]; [done|].
  rewrite !fmap_cons. by f_equal.
Qed.

(** X4.  With a solver that answers and keeps its contract, a block gets a
    result exactly when every must-run and every available generator that
    has a series has its data point for (date, block), the rate table has
    an entry for (date, block), and the net demand exceeds the must-run
    energy. *)
Theorem block_succeeds_iff
    (demand : Q) (date : Date) (block : Z) (gens : list Generator) :
  sound solver ->
  responsive solver ->
  ((exists r, outcome (process_block demand date block gens) = inr (Some r)) <->
   all_data_points (must_run gens) date block /\
   all_data_points (available gens) date block /\
   is_Some (lookup_entry date block df_grid_cost) /\
   sum_Q (energy_bound date block <$> must_run gens)
     < net_demand date block demand).
Proof.
  intros Hsound Hresp. split.
  - intros [r Hr].
    apply process_block_success in Hr
      as (mp & mc & md & gc & am & ac & ad & Hmr & Hrate & Hpos & Hopt & _).
    cbv zeta in *. split.
    { apply (must_run_loop_ok_iff _ date block 0 0 []). by eexists. }
    split.
    { apply optimize_available_generators_result in Hopt
        as (vars' & _ & _ & Hset & _).
      by eapply set_upBounds_inr. }
    split; [by eexists|].
    apply must_run_power_value in Hmr. rewrite <- Hmr. lra.
  - intros (Hmust & Havail & [gc Hrate] & Hpos).
    destruct (proj2 (must_run_loop_ok_iff _ date block 0 0 []) Hmust)
      as [[[mp mc] md] Hmr].
    fold (calculate_must_run_power gens date block) in Hmr.
    pose proof (must_run_power_value _ _ _ _ _ _ Hmr) as Hmp.
    rewrite process_block_unfold, outcome_try_except, outcome_bind.
    rewrite (optimize_power_for_demand_cases _ _ _ _ _ _ _ _ _ _ _ _ Hmr).
    cbv zeta. rewrite Hrate.
    assert (H1 : Qltb (net_demand date block demand - mp) 0 = false)
      by (apply Qltb_ge; lra).
    assert (H2 : Qltb 0 (net_demand date block demand - mp) = true)
      by (apply Qltb_lt; lra).
    rewrite H1, H2, outcome_bind.
    destruct (proj2 (optimize_available_generators_ok_iff
                       (net_demand date block demand - mp) date block gens
                       (setup_optimization_problem gens).1
                       (setup_optimization_problem gens).2 Hsound Hresp
                       ltac:(intros g [_ Hg]%list_elem_of_filter;
                             by rewrite setup_optimization_problem_vars))
                    Havail) as [[[am ac] ad] Hopt].
    rewrite Hopt. simpl. by eexists.
Qed.

End Success.

(** ** The program handed to the solver, and the signs of the result *)

Section Quantities.

Variable preloaded_generators : gmap string DataFrame.
Variables df_grid_cost df_oa df_bank : DataFrame.
Variable solver : Solver.

Local Abbreviation calculate_must_run_power :=
  (calculate_must_run_power preloaded_generators).
Local Abbreviation set_upBounds := (set_upBounds preloaded_generators).
Local Abbreviation energy_bound := (energy_bound preloaded_generators).
Local Abbreviation optimize_available_generators :=
  (optimize_available_generators preloaded_generators solver).
Local Abbreviation process_block :=
  (process_block preloaded_generators df_grid_cost df_oa df_bank solver).
Local Abbreviation net_demand := (net_demand df_oa df_bank).
Local Abbreviation must_run gens :=
  (filter (fun g => Type_of_Plant g = MUST_RUN_TYPE) gens).
Local Abbreviation available gens :=
  (filter (fun g => Type_of_Plant g = AVAILABLE_TYPE) gens).

Lemma setup_vars_foldl_zero gens (acc : gmap string LpVariable) :
  (forall x v, acc !! x = Some v -> v = {| lowBound := 0; upBound := 0 |}) ->
  forall x v,
    foldl (fun vars g => <[name g := {| lowBound := 0; upBound := 0 |}]> vars)
          acc gens !! x = Some v ->
    v = {| lowBound := 0; upBound := 0 |}.
Proof.
  revert acc. induction gens as [|g gens IH]; intros acc Hacc; simpl; [done|].
  apply IH. intros x v. rewrite lookup_insert. case_decide; [congruence|apply Hacc].
Qed.

Lemma setup_optimization_problem_zero gens x v :
  (setup_optimization_problem gens).2 !! x = Some v ->
  v = {| lowBound := 0; upBound := 0 |}.
Proof.
  apply setup_vars_foldl_zero. intros y w. by rewrite lookup_empty.
Qed.

Lemma optimize_available_generators_solve rem date block gens prob vars p v :
  Solve p v ∈ events (optimize_available_generators rem date block gens prob vars) ->
  outcome (set_upBounds (available gens) date block vars) = inr v /\
  p = {| objective := name <$> available gens;
         constraints := constraints prob ++ [(name <$> available gens, rem)] |}.
Proof.
  unfold optimize_available_generators.
  rewrite events_bind, set_upBounds_events.
  destruct (outcome (set_upBounds _ _ _ _)) as [|vars']; [by intros ?%elem_of_nil|].
  rewrite events_bind, lpSum_events.
  destruct (outcome (lpSum _ _)) as [|obj] eqn:Hobj; [by intros ?%elem_of_nil|].
  rewrite events_bind, lpSum_events, Hobj, events_bind, events_log, outcome_log.
  apply lpSum_outcome in Hobj as ->. simpl.
  intros [[= -> ->]|Hin]%elem_of_cons; [done|].
  destruct (solver _ vars') as [[status sol]|]; [|by apply elem_of_nil in Hin].
  destruct (decide (status = LpStatusOptimal)).
  - rewrite events_bind, varValues_events in Hin.
    destruct (outcome (varValues _ _)); by apply elem_of_nil in Hin.
  - absent_event Hin.
Qed.

Lemma process_block_solve demand date block gens p v :
  Solve p v ∈ events (process_block demand date block gens) ->
  exists mp mc md,
    outcome (calculate_must_run_power gens date block) = inr (mp, mc, md) /\
    0 < net_demand date block demand - mp /\
    is_Some (lookup_entry date block df_grid_cost) /\
    outcome (set_upBounds (available gens) date block
               (setup_optimization_problem gens).2) = inr v /\
    p = {| objective := name <$> available gens;
           constraints := [(name <$> available gens,
                            net_demand date block demand - mp)] |}.
Proof.
  intros Hin.
  destruct (outcome (calculate_must_run_power gens date block))
    as [e|[[mp mc] md]] eqn:Hmr.
  { rewrite (process_block_must_run_raises _ _ _ _ _ _ _ _ _ _ Hmr) in Hin.
    absent_event Hin. }
  rewrite process_block_unfold in Hin.
  rewrite (optimize_power_for_demand_cases _ _ _ _ _ _ _ _ _ _ _ _ Hmr) in Hin.
  cbv zeta in Hin.
  destruct (Qltb _ 0); [absent_event Hin|].
  destruct (lookup_entry date block df_grid_cost) as [gc|]; [|absent_event Hin].
  destruct (Qltb 0 _) eqn:Hpos; [|absent_event Hin].
  apply Qltb_lt in Hpos.
  rewrite events_try_except, !events_bind, !outcome_bind in Hin.
  assert (Hopt : Solve p v ∈ events (optimize_available_generators
                   (net_demand date block demand - mp) date block gens
                   (setup_optimization_problem gens).1
                   (setup_optimization_problem gens).2)).
  { destruct (outcome (optimize_available_generators _ _ _ _ _ _))
      as [|[[am ac] ad]]; simpl in Hin; rewrite ?app_nil_r in Hin.
    - apply elem_of_app in Hin as [Hin|Hin]; [done | absent_event Hin].
    - done. }
  apply optimize_available_generators_solve in Hopt as [Hset ->].
  exists mp, mc, md. repeat (split; [done || by eexists|]). reflexivity.
Qed.

(** The log of a block: error lines, after the solver call if there is
    one. *)
Lemma optimize_available_generators_log_shape rem date block gens prob vars :
  events (optimize_available_generators rem date block gens prob vars) = [] \/
  exists p v rest,
    events (optimize_available_generators rem date block gens prob vars)
    = Solve p v :: rest /\
    Forall (fun ev => exists m, ev = LogError m) rest.
Proof.
  unfold optimize_available_generators.
  rewrite events_bind, set_upBounds_events.
  destruct (outcome (set_upBounds _ _ _ _)) as [|vars']; [by left|].
  rewrite events_bind, lpSum_events.
  destruct (outcome (lpSum _ _)) as [|obj] eqn:Hobj; [by left|].
  rewrite events_bind, lpSum_events, Hobj, events_bind, events_log, outcome_log.
  right. simpl. eexists _, _, _. split; [reflexivity|].
  destruct (solver _ vars') as [[status sol]|]; [|constructor].
  destruct (decide (status = LpStatusOptimal)).
  - rewrite events_bind, varValues_events.
    destruct (outcome (varValues _ _)); constructor.
  - repeat constructor. by eexists.
Qed.

Lemma process_block_log_shape demand date block gens :
  Forall (fun ev => exists m, ev = LogError m)
         (events (process_block demand date block gens)) \/
  exists p v rest,
    events (process_block demand date block gens) = Solve p v :: rest /\
    Forall (fun ev => exists m, ev = LogError m) rest.
Proof.
  destruct (outcome (calculate_must_run_power gens date block))
    as [e|[[mp mc] md]] eqn:Hmr.
  { left. rewrite (process_block_must_run_raises _ _ _ _ _ _ _ _ _ _ Hmr).
    repeat constructor. by eexists. }
  rewrite process_block_unfold, events_try_except, events_bind, outcome_bind.
  rewrite (optimize_power_for_demand_cases _ _ _ _ _ _ _ _ _ _ _ _ Hmr).
  cbv zeta.
  destruct (Qltb _ 0); [left; repeat constructor; by eexists|].
  destruct (lookup_entry date block df_grid_cost) as [gc|];
    [|left; repeat constructor; by eexists].
  destruct (Qltb 0 _); [|left; repeat constructor; by eexists].
  rewrite events_bind, outcome_bind.
  destruct (optimize_available_generators_log_shape
              (net_demand date block demand - mp) date block gens
              (setup_optimization_problem gens).1
              (setup_optimization_problem gens).2)
    as [Hnil|(p & v & rest & Hev & Hrest)].
  - left. rewrite Hnil.
    destruct (outcome (optimize_available_generators _ _ _ _ _ _))
      as [e|[[am ac] ad]]; simpl; repeat constructor; by eexists.
  - right. exists p, v. rewrite Hev.
    destruct (outcome (optimize_available_generators _ _ _ _ _ _))
      as [e|[[am ac] ad]]; simpl; eexists; (split; [reflexivity|]);
      rewrite ?app_nil_r; [|done].
    apply Forall_app. split; [done|]. repeat constructor. by eexists.
Qed.

(** X5.  [process_block] calls the solver at most once: a log with a
    solver call begins with it and holds nothing but error lines after it.
    The program handed over maximises the sum of the variables of the
    available generators, in table order, under the one constraint that
    this sum does not exceed the net demand less the must-run energy, which
    is positive.  Every generator of the table, must-run ones included, has
    a variable with lower bound 0; when the names of the available
    generators are pairwise distinct, the upper bound of each one's
    variable is its availability in kWh, and 0 without a series. *)
Theorem solver_call
    (demand : Q) (date : Date) (block : Z) (gens : list Generator)
    (p : LpProblem) (v : gmap string LpVariable) :
  Solve p v ∈ events (process_block demand date block gens) ->
  (exists rest,
     events (process_block demand date block gens) = Solve p v :: rest /\
     Forall (fun ev => exists m, ev = LogError m) rest) /\
  (exists mp mc md,
     outcome (calculate_must_run_power gens date block) = inr (mp, mc, md) /\
     0 < net_demand date block demand - mp /\
     p = {| objective := name <$> available gens;
            constraints := [(name <$> available gens,
                             net_demand date block demand - mp)] |}) /\
  (forall g, g ∈ gens -> exists var, v !! name g = Some var /\ lowBound var = 0) /\
  (NoDup (name <$> available gens) ->
   forall g, g ∈ available gens ->
     exists var, v !! name g = Some var /\ upBound var = energy_bound date block g).
Proof.
  intros Hin.
  destruct (process_block_solve _ _ _ _ _ _ Hin)
    as (mp & mc & md & Hmr & Hpos & _ & Hset & ->).
  split.
  { destruct (process_block_log_shape demand date block gens)
      as [Hlog|(p' & v' & rest & Hev & Hrest)].
    - rewrite Forall_forall in Hlog. by destruct (Hlog _ Hin) as [m [=]].
    - rewrite Hev in Hin. apply elem_of_cons in Hin as [[= <- <-]|Hin].
      + by exists rest.
      + rewrite Forall_forall in Hrest. by destruct (Hrest _ Hin) as [m [=]]. }
  split; [by exists mp, mc, md|]. split.
  - intros g Hg.
    destruct (set_upBounds_dom _ _ _ _ _ _ (name g) Hset) as [var Hvar].
    { by rewrite setup_optimization_problem_vars. }
    exists var. split; [done|].
    eapply (set_upBounds_lowBound _ _ _ _ _ _ Hset); [|exact Hvar].
    intros x var' Hx.
    by rewrite (setup_optimization_problem_zero _ _ _ Hx).
  - intros Hnodup g Hg.
    apply (set_upBounds_lookup _ _ _ _ _ _ Hset Hnodup); [|done].
    intros g' Hg'. exists {| lowBound := 0; upBound := 0 |}. split; [|reflexivity].
    apply setup_optimization_problem_vars.
    by apply list_elem_of_filter in Hg' as [_ Hg'].
Qed.

Lemma zip_with_cost_nonneg (vs : list Q) (gs : list Generator) :
  Forall (fun v => 0 <= v) vs ->
  (forall g, g ∈ gs -> 0 <= variable_cost g) ->
  Forall (fun x => 0 <= x) (zip_with (fun v g => v * variable_cost g) vs gs).
Proof.
  intros Hvs. revert gs. induction Hvs as [|v vs Hv _ IH]; intros [|g gs] Hgs;
    simpl; try constructor.
  - apply Qmult_le_0_compat; [done|]. apply Hgs. by left.
  - apply IH. intros g' Hg'. apply Hgs. by right.
Qed.

(** X6.  Non-negative inputs give a non-negative result.  When the variable
    costs, the availabilities of the must-run generators and the grid rate
    are not negative and the solver keeps its contract, every result has a
    positive net demand and no negative energy, rate or cost. *)
Theorem result_is_nonnegative
    (demand : Q) (date : Date) (block : Z) (gens : list Generator) (r : BlockResult) :
  sound solver ->
  (forall g, g ∈ gens -> 0 <= variable_cost g) ->
  (forall g, g ∈ must_run gens -> 0 <= energy_bound date block g) ->
  (forall rate, lookup_entry date block df_grid_cost = Some rate -> 0 <= rate) ->
  outcome (process_block demand date block gens) = inr (Some r) ->
  0 < r_Demand r /\
  0 <= r_Must_Run_Generators_Used r /\
  0 <= r_Available_Generators_Used r /\
  0 <= r_Grid_Consumption r /\
  0 <= r_Grid_Rate r /\
  0 <= r_Total_Cost r.
Proof.
  intros Hsound Hcost Hmust Hrate Hr.
  apply process_block_success in Hr
    as (mp & mc & md & gc & am & ac & ad & Hmr & Hgc & Hpos & Hopt
        & _ & _ & -> & -> & -> & -> & -> & -> & _).
  cbv zeta in *. apply Hrate in Hgc.
  apply must_run_loop_result in Hmr as (ds & _ & -> & -> & Hds).
  fold (sum_Q (detail_kwh <$> ds)) in *. fold (sum_Q (detail_inr <$> ds)).
  assert (Hkwh : Forall (fun x => 0 <= x) (detail_kwh <$> ds)
                 /\ Forall (fun x => 0 <= x) (detail_inr <$> ds)).
  { assert (Hin : forall g, g ∈ filter (fun g => is_Some (preloaded_generators !! Code g))
                                   (must_run gens) ->
                    0 <= energy_bound date block g /\ 0 <= variable_cost g).
    { intros g [_ Hg]%list_elem_of_filter. split; [by apply Hmust|].
      apply Hcost. by apply list_elem_of_filter in Hg as [_ Hg]. }
    clear -Hds Hin.
    induction Hds as [|g d gs ds (_ & Hk & Hi) _ IH]; [split; constructor|].
    destruct (Hin g ltac:(by left)) as [H1 H2].
    destruct IH as [IH1 IH2]; [intros g' Hg'; apply Hin; by right|].
    rewrite !fmap_cons. split; constructor; try done.
    - by rewrite Hk.
    - rewrite Hi, Hk. by apply Qmult_le_0_compat. }
  destruct Hkwh as [Hkwh Hinr].
  apply sum_Q_nonneg in Hkwh, Hinr.
  assert (Ham : 0 <= am /\ 0 <= ac).
  { rewrite setup_optimization_problem_prob in Hopt.
    apply optimize_available_generators_result in Hopt
      as (vars' & status & sol & Hset & Hsolve
          & [(_ & -> & -> & _)|(-> & vs & Hvs & -> & -> & _)]); [lra|].
    apply Hsound in Hsolve as [Hbounds _].
    assert (Hvs' : Forall (fun v => 0 <= v) vs).
    { eapply Forall2_Forall_r; [exact Hvs|]. apply Forall_forall.
      intros g Hg v Hv.
      destruct (Hbounds (name g)) as (var & v' & Hvar & Hv' & Hlow & _).
      { unfold problem_variables. simpl. apply elem_of_app. left.
        by apply list_elem_of_fmap_2. }
      assert (v' = v) as -> by congruence.
      rewrite <- (set_upBounds_lowBound _ _ _ _ _ _ Hset
                    ltac:(intros x w Hx;
                          by rewrite (setup_optimization_problem_zero _ _ _ Hx))
                    _ _ Hvar).
      exact Hlow. }
    split; [by apply sum_Q_nonneg|].
    apply sum_Q_nonneg, zip_with_cost_nonneg; [done|].
    intros g [_ Hg]%list_elem_of_filter. by apply Hcost. }
  destruct Ham as [Ham Hac].
  split; [lra|]. split; [done|]. split; [done|].
  destruct (Qltb am _) eqn:Hlt.
  - apply Qltb_lt in Hlt. split; [lra|]. split; [done|].
    assert (0 <= (net_demand date block demand - sum_Q (detail_kwh <$> ds) - am) * gc)
      by (apply Qmult_le_0_compat; lra).
    lra.
  - split; [lra|]. split; [done|]. lra.
Qed.

End Quantities.

(** ** Maximal dispatch *)

Lemma sum_Q_pointwise_le {A} (f g : A -> Q) (l : list A) :
  (forall a, a ∈ l -> f a <= g a) -> sum_Q (f <$> l) <= sum_Q (g <$> l).
Proof.
  induction l as [|a l IH]; intros Hfg.
  - rewrite !fmap_nil, sum_Q_nil. lra.
  - rewrite !fmap_cons, !sum_Q_cons.
    assert (f a <= g a) by (apply Hfg; by left).
    assert (sum_Q (f <$> l) <= sum_Q (g <$> l))
      by (apply IH; intros a' Ha'; apply Hfg; by right).
    lra.
Qed.

Lemma scale_value total rhs :
  0 <= rhs ->
  (total <= rhs -> scale total rhs * total == total) /\
  (rhs <= total -> scale total rhs * total == rhs).
Proof.
  intros Hrhs. unfold scale.
  destruct (Qle_bool total rhs) eqn:Hle.
  - apply Qle_bool_iff in Hle. split; intros; lra.
  - assert (Hlt : rhs < total).
    { apply Qnot_le_lt. intros H%Qle_bool_iff. congruence. }
    split; [intros; lra|]. intros _. field. lra.
Qed.

Lemma proportional_fill_value vars lhs rhs :
  (forall x, x ∈ lhs -> is_Some (vars !! x)) ->
  sum_Q (value_of (proportional_fill vars lhs rhs) <$> lhs)
  == scale (sum_Q (upBound_of vars <$> lhs)) rhs * sum_Q (upBound_of vars <$> lhs).
Proof.
  intros Hdom. apply sum_Q_scaled. intros x Hx.
  destruct (Hdom x Hx) as [var Hvar]. unfold value_of, upBound_of.
  rewrite (proportional_fill_lookup _ _ _ _ _ Hx Hvar), Hvar. reflexivity.
Qed.

Lemma reference_solver_optimal prob vars sol :
  reference_solver prob vars = Some (LpStatusOptimal, sol) ->
  exists rhs,
    constraints prob = [(objective prob, rhs)] /\ 0 <= rhs /\
    sol = proportional_fill vars (objective prob) rhs /\
    forall x, x ∈ objective prob ->
      exists var, vars !! x = Some var /\ lowBound var <= 0 /\ 0 <= upBound var.
Proof.
  unfold reference_solver.
  destruct (constraints prob) as [|[lhs rhs] [|]] eqn:Hcons; try discriminate.
  case_bool_decide as Hobj; [|discriminate]. subst lhs.
  destruct (forallb (bounds_admit_zero vars) (objective prob)) eqn:Hall.
  2:{ destruct (existsb _ _); discriminate. }
  destruct (Qle_bool 0 rhs) eqn:Hrhs; [|discriminate].
  intros [= <-]. apply Qle_bool_iff in Hrhs.
  exists rhs. split; [done|]. split; [done|]. split; [done|].
  intros x Hx. apply bounds_admit_zero_spec.
  rewrite forallb_forall in Hall. apply Hall. by apply list_elem_of_In.
Qed.

Lemma reference_solver_maximising : maximising reference_solver.
Proof.
  intros prob vars sol Hsol sol' [Hbounds Hcons].
  apply reference_solver_optimal in Hsol as (rhs & Hprob & Hrhs & -> & Hvars).
  unfold objective_value.
  rewrite proportional_fill_value
    by (intros x Hx; destruct (Hvars x Hx) as (var & -> & _); by eexists).
  assert (Hle1 : sum_Q (value_of sol' <$> objective prob) <= rhs).
  { apply Hcons. rewrite Hprob. by left. }
  assert (Hle2 : sum_Q (value_of sol' <$> objective prob)
                 <= sum_Q (upBound_of vars <$> objective prob)).
  { apply sum_Q_pointwise_le. intros x Hx.
    destruct (Hbounds x) as (var & v & Hvar & Hv & _ & Hup).
    { unfold problem_variables. apply elem_of_app. by left. }
    unfold value_of, upBound_of. by rewrite Hvar, Hv. }
  destruct (scale_value (sum_Q (upBound_of vars <$> objective prob)) rhs Hrhs)
    as [H1 H2].
  destruct (Qlt_le_dec rhs (sum_Q (upBound_of vars <$> objective prob))).
  - rewrite H2; lra.
  - rewrite H1; lra.
Qed.

Lemma proportional_fill_feasible prob vars rhs :
  constraints prob = [(objective prob, rhs)] ->
  0 <= rhs ->
  (forall x, x ∈ objective prob ->
     exists var, vars !! x = Some var /\ lowBound var <= 0 /\ 0 <= upBound var) ->
  feasible prob vars (proportional_fill vars (objective prob) rhs).
Proof.
  intros Hcons Hrhs Hvar.
  destruct (scale_range (sum_Q (upBound_of vars <$> objective prob)) rhs Hrhs)
    as [Ht0 Ht1].
  split.
  - intros x Hx.
    assert (Hx' : x ∈ objective prob).
    { unfold problem_variables in Hx. rewrite Hcons in Hx. simpl in Hx.
      rewrite app_nil_r in Hx. by apply elem_of_app in Hx as [?|?]. }
    destruct (Hvar x Hx') as (var & Hlook & Hlow & Hup).
    exists var, (scale (sum_Q (upBound_of vars <$> objective prob)) rhs * upBound var).
    split; [done|]. split; [by apply proportional_fill_lookup|]. split; nra.
  - intros lhs' rhs'. rewrite Hcons.
    intros [= -> ->]%list_elem_of_singleton.
    rewrite proportional_fill_value
      by (intros x Hx; destruct (Hvar x Hx) as (var & -> & _); by eexists).
    by apply scale_total.
Qed.

Section Maximal.

Variable preloaded_generators : gmap string DataFrame.
Variables df_grid_cost df_oa df_bank : DataFrame.
Variable solver : Solver.

Local Abbreviation calculate_must_run_power :=
  (calculate_must_run_power preloaded_generators).
Local Abbreviation set_upBounds := (set_upBounds preloaded_generators).
Local Abbreviation energy_bound := (energy_bound preloaded_generators).
Local Abbreviation optimize_available_generators :=
  (optimize_available_generators preloaded_generators solver).
Local Abbreviation process_block :=
  (process_block preloaded_generators df_grid_cost df_oa df_bank solver).
Local Abbreviation net_demand := (net_demand df_oa df_bank).
Local Abbreviation available gens :=
  (filter (fun g => Type_of_Plant g = AVAILABLE_TYPE) gens).

Lemma available_variables date block gens vars' :
  NoDup (name <$> available gens) ->
  outcome (set_upBounds (available gens) date block
             (setup_optimization_problem gens).2) = inr vars' ->
  forall g, g ∈ available gens ->
    exists var, vars' !! name g = Some var /\ lowBound var = 0 /\
                upBound var = energy_bound date block g.
Proof.
  intros Hnodup Hset g Hg.
  destruct (set_upBounds_lookup _ _ _ _ _ _ Hset Hnodup
              ltac:(intros g' [_ Hg']%list_elem_of_filter;
                    exists {| lowBound := 0; upBound := 0 |};
                    split; [by apply setup_optimization_problem_vars | done])
              g Hg) as (var & Hvar & Hup).
  exists var. split; [done|]. split; [|done].
  eapply (set_upBounds_lowBound _ _ _ _ _ _ Hset); [|exact Hvar].
  intros x w Hx. by rewrite (setup_optimization_problem_zero _ _ _ Hx).
Qed.

(** X7.  With a solver whose optimal solutions are feasible and maximal,
    a block whose program is solved to optimality dispatches as much from
    the available generators as the remaining demand and their total
    availability allow, and buys from the grid only what they cannot cover.
    The names of the available generators are pairwise distinct and their
    availabilities are not negative. *)
Theorem dispatch_is_maximal
    (demand : Q) (date : Date) (block : Z) (gens : list Generator) (r : BlockResult) :
  sound solver ->
  maximising solver ->
  NoDup (name <$> available gens) ->
  (forall g, g ∈ available gens -> 0 <= energy_bound date block g) ->
  outcome (process_block demand date block gens) = inr (Some r) ->
  LogError NoFeasibleSolution ∉ events (process_block demand date block gens) ->
  (sum_Q (energy_bound date block <$> available gens)
   <= net_demand date block demand - r_Must_Run_Generators_Used r ->
   r_Available_Generators_Used r
     == sum_Q (energy_bound date block <$> available gens) /\
   r_Grid_Consumption r
     == net_demand date block demand - r_Must_Run_Generators_Used r
        - sum_Q (energy_bound date block <$> available gens)) /\
  (net_demand date block demand - r_Must_Run_Generators_Used r
   <= sum_Q (energy_bound date block <$> available gens) ->
   r_Available_Generators_Used r
     == net_demand date block demand - r_Must_Run_Generators_Used r /\
   r_Grid_Consumption r == 0).
Proof.
  intros Hsound Hmax Hnodup Hnonneg Hr Hlog.
  pose proof Hr as Hr'.
  apply process_block_success in Hr'
    as (mp & mc & md & gc & am & ac & ad & Hmr & _ & Hpos & Hopt
        & _ & _ & _ & -> & -> & -> & _).
  cbv zeta in *.
  rewrite (process_block_success_events _ _ _ _ _ _ _ _ _ _ _ _ _ Hr Hmr) in Hlog.
  rewrite setup_optimization_problem_prob in Hopt, Hlog.
  assert (Hrem : am <= net_demand date block demand - mp)
    by (eapply available_energy_le_remaining; [done| |exact Hopt]; lra).
  destruct (optimize_available_generators_log _ _ _ _ _ _ _ _ _ Hopt)
    as (vars' & status & sol & Hset & Hsolve & Hev).
  rewrite Hev in Hlog. simpl in Hsolve.
  destruct (decide (status = LpStatusOptimal)) as [->|_].
  2:{ destruct Hlog. right. by left. }
  apply optimize_available_generators_result in Hopt
    as (vars'' & status' & sol' & Hset' & Hsolve' & Hcases).
  rewrite Hset in Hset'. injection Hset' as <-.
  simpl in Hsolve'. rewrite Hsolve in Hsolve'. injection Hsolve' as <- <-.
  destruct Hcases as [(Hno & _)|(_ & vs & Hvs & -> & _)]; [done|].
  set (names := name <$> available gens) in *.
  set (rem := net_demand date block demand - mp) in *.
  set (prob := {| objective := names; constraints := [(names, rem)] |}) in *.
  pose proof (available_variables _ _ _ _ Hnodup Hset) as Hvars.
  assert (Hcap : sum_Q vs <= sum_Q (energy_bound date block <$> available gens)).
  { apply sum_Q_le. eapply Forall2_impl_elem; [exact Hvs|]. simpl.
    intros g v Hg Hv. destruct (Hvars g Hg) as (var & Hvar & _ & <-).
    destruct (proj1 (Hsound _ _ _ Hsolve) (name g)) as (var' & v' & Hvar' & Hv' & _ & Hup).
    { unfold problem_variables. simpl. apply elem_of_app. left.
      by apply list_elem_of_fmap_2. }
    congruence. }
  assert (Hfill : feasible prob vars' (proportional_fill vars' names rem)).
  { apply (proportional_fill_feasible prob vars' rem); [reflexivity | lra |].
    intros x (g & -> & Hg)%list_elem_of_fmap.
    destruct (Hvars g Hg) as (var & Hvar & Hlow & Hup).
    exists var. split; [done|]. rewrite Hlow, Hup. split; [lra | by apply Hnonneg]. }
  pose proof (Hmax _ _ _ Hsolve _ Hfill) as Hbest.
  unfold objective_value in Hbest. simpl in Hbest.
  assert (Hvals : vs = value_of sol <$> names) by (by apply Forall2_value_of).
  rewrite <- Hvals in Hbest.
  rewrite proportional_fill_value in Hbest.
  2:{ intros x (g & -> & Hg)%list_elem_of_fmap.
      destruct (Hvars g Hg) as (var & -> & _). by eexists. }
  assert (Hups : upBound_of vars' <$> names
                 = energy_bound date block <$> available gens).
  { unfold names. rewrite <- list_fmap_compose. apply list_fmap_ext.
    intros i g Hg%list_elem_of_lookup_2. simpl.
    destruct (Hvars g Hg) as (var & Hvar & _ & <-).
    unfold upBound_of. by rewrite Hvar. }
  rewrite Hups in Hbest.
  destruct (scale_value (sum_Q (energy_bound date block <$> available gens)) rem
              ltac:(lra)) as [Hfit Hshort].
  split.
  - intros Hle. rewrite (Hfit Hle) in Hbest.
    destruct (Qltb (sum_Q vs) rem) eqn:Hlt; [split; lra|].
    apply Qltb_ge in Hlt. split; lra.
  - intros Hle. rewrite (Hshort Hle) in Hbest.
    destruct (Qltb (sum_Q vs) rem) eqn:Hlt; [|split; lra].
    apply Qltb_lt in Hlt. lra.
Qed.

End Maximal.

(** ** Submissions and the report *)

Lemma elem_of_range (start stop block : Z) :
  block ∈ range start stop <-> (start <= block < stop)%Z.
Proof.
  unfold range. rewrite list_elem_of_fmap. split.
  - intros (i & -> & Hi%elem_of_seq). lia.
  - intros Hblock. exists (Z.to_nat (block - start)). split; [lia|].
    apply elem_of_seq. lia.
Qed.

Lemma length_range (start stop : Z) :
  length (range start stop) = Z.to_nat (stop - start).
Proof. unfold range. by rewrite length_fmap, length_seq. Qed.

Lemma report_row_inr r x :
  report_row r = inr x ->
  c_Date x = r_Date r /\ c_Block x = r_Block r /\ c_Demand x = r_Demand r.
Proof.
  unfold report_row.
  destruct (r_OA_Used r), (r_Bank_Adjustment r); try discriminate.
  by intros [= <-].
Qed.

Section Submissions.

Variable df_demand : DataFrame.

Local Abbreviation submissions_of_row := (submissions_of_row df_demand).
Local Abbreviation submissions := (submissions df_demand).

(** The submissions of one demand row over a list of blocks. *)
Local Abbreviation jobs_of_row row blocks :=
  ((fun block => (cell row (LInt block), row_date row, block)) <$> blocks).

Lemma submissions_of_row_inr row blocks js :
  submissions_of_row (row_date row) row blocks = inr js ->
  js = jobs_of_row row blocks /\
  forall block, block ∈ blocks -> has_column (LInt block) df_demand = true.
Proof.
  revert js. induction blocks as [|block blocks IH]; intros js; simpl.
  - intros [= <-]. split; [done|]. intros block Hin. by apply elem_of_nil in Hin.
  - destruct (has_column (LInt block) df_demand) eqn:Hcol; [|discriminate].
    destruct (submissions_of_row _ row blocks) as [|js']; [discriminate|].
    intros [= <-]. destruct (IH js' eq_refl) as [-> Hcols].
    split; [done|]. by intros b [->|Hb]%elem_of_cons; [|apply Hcols].
Qed.

Lemma submissions_of_row_ok row blocks :
  (forall block, block ∈ blocks -> has_column (LInt block) df_demand = true) ->
  submissions_of_row (row_date row) row blocks = inr (jobs_of_row row blocks).
Proof.
  induction blocks as [|block blocks IH]; intros Hcols; simpl; [done|].
  rewrite (Hcols block) by (by left).
  rewrite IH; [done|]. intros b Hb. apply Hcols. by right.
Qed.

Lemma submissions_of_row_inl row blocks e :
  submissions_of_row (row_date row) row blocks = inl e -> e = KeyError.
Proof.
  induction blocks as [|b blocks IH]; simpl; [discriminate|].
  destruct (has_column (LInt b) df_demand); [|by intros [= <-]].
  destruct (submissions_of_row _ row blocks); [|discriminate].
  intros [= <-]. by apply IH.
Qed.

Lemma submissions_inr rows start_block end_block futures :
  submissions rows start_block end_block = inr futures ->
  futures = rows ≫= (fun row => jobs_of_row row (range start_block (end_block + 1))) /\
  (rows <> [] ->
   forall block, (start_block <= block <= end_block)%Z ->
                 has_column (LInt block) df_demand = true).
Proof.
  revert futures. induction rows as [|row rows IH]; intros futures; simpl.
  - intros [= <-]. split; done.
  - destruct (submissions_of_row _ row _) as [|js] eqn:Hrow; [discriminate|].
    destruct (submissions rows start_block end_block) as [|js']; [discriminate|].
    intros [= <-]. apply submissions_of_row_inr in Hrow as [-> Hcols].
    destruct (IH js' eq_refl) as [-> _]. split; [done|].
    intros _ block Hblock. apply Hcols, elem_of_range. lia.
Qed.

Lemma submissions_inl rows start_block end_block e :
  submissions rows start_block end_block = inl e -> e = KeyError.
Proof.
  induction rows as [|row rows IH]; simpl; [discriminate|].
  destruct (submissions_of_row _ row _) as [e'|js] eqn:Hrow.
  - intros [= <-]. by eapply submissions_of_row_inl.
  - destruct (submissions rows start_block end_block); [|discriminate].
    intros [= <-]. by apply IH.
Qed.

(** X8.  When every block of the range is an integer-labelled column of the
    demand table, the submissions are the grid of the rows and the blocks
    [start_block .. end_block], both bounds included: row by row in table
    order and, within a row, by ascending block, each with the row's demand
    for the block. *)
Theorem submissions_are_the_grid
    (rows : list Row) (start_block end_block : Z) :
  (forall block, (start_block <= block <= end_block)%Z ->
                 has_column (LInt block) df_demand = true) ->
  submissions rows start_block end_block
  = inr (rows ≫= (fun row => jobs_of_row row (range start_block (end_block + 1)))) /\
  (forall i : nat, (start_block + Z.of_nat i <= end_block)%Z ->
     range start_block (end_block + 1) !! i = Some (start_block + Z.of_nat i)%Z) /\
  length (rows ≫= (fun row => jobs_of_row row (range start_block (end_block + 1))))
  = (length rows * Z.to_nat (end_block + 1 - start_block))%nat.
Proof.
  intros Hcols. split; [|split].
  - induction rows as [|row rows IH]; simpl; [done|].
    rewrite submissions_of_row_ok, IH; [done|].
    intros block Hblock%elem_of_range. apply Hcols. lia.
  - intros i Hi. unfold range. rewrite list_lookup_fmap, lookup_seq_lt by lia.
    reflexivity.
  - induction rows as [|row rows IH]; [done|].
    rewrite bind_cons, length_app, IH, length_fmap, length_range. simpl. lia.
Qed.

End Submissions.

Lemma length_omap_le {A B} (f : A -> option B) (l : list A) :
  (length (omap f l) <= length l)%nat.
Proof.
  induction l as [|a l IH]; csimpl; [done|].
  destruct (f a); csimpl; lia.
Qed.

Lemma report_rows_total results :
  Forall (fun r => is_Some (r_OA_Used r) /\ is_Some (r_Bank_Adjustment r)) results ->
  exists report, report_rows results = inr report /\ length report = length results.
Proof.
  induction 1 as [|r results [[oa Hoa] [bank Hbank]] _ (report & Hreport & Hlen)].
  - by exists [].
  - simpl. unfold report_row. rewrite Hoa, Hbank, Hreport.
    eexists. split; [reflexivity|]. simpl. by rewrite Hlen.
Qed.

Section Reports.

Variable preloaded_generators : gmap string DataFrame.
Variables df_grid_cost df_oa df_bank : DataFrame.
Variable solver : Solver.
Variable df_demand : DataFrame.
Variable df_generators : list Generator.

Local Abbreviation process_block :=
  (process_block preloaded_generators df_grid_cost df_oa df_bank solver).
Local Abbreviation net_demand := (net_demand df_oa df_bank).
Local Abbreviation future_result :=
  (future_result preloaded_generators df_grid_cost df_oa df_bank solver df_generators).
Local Abbreviation completed_result :=
  (completed_result preloaded_generators df_grid_cost df_oa df_bank solver
     df_generators).
Local Abbreviation collect :=
  (collect preloaded_generators df_grid_cost df_oa df_bank solver df_generators).
Local Abbreviation run_normal :=
  (run_normal preloaded_generators df_grid_cost df_oa df_bank solver df_demand
     df_generators).
Local Abbreviation submissions := (submissions df_demand).
Local Abbreviation in_dates start_date end_date :=
  (filter (fun r => (start_date <= row_date r)%Z /\ (row_date r <= end_date)%Z)
          (rows df_demand)).

Lemma completed_result_Some futures i r :
  completed_result futures i = Some r ->
  exists demand date block,
    futures !! i = Some (demand, date, block) /\
    outcome (process_block demand date block df_generators) = inr (Some r).
Proof.
  unfold completed_result.
  destruct (futures !! i) as [[[demand date] block]|]; [|discriminate]. simpl.
  destruct (outcome (process_block demand date block df_generators))
    as [|[r'|]] eqn:Hr; try discriminate.
  intros [= <-]. by exists demand, date, block.
Qed.

Lemma collected_results_have_adjustments futures completed :
  Forall (fun r => is_Some (r_OA_Used r) /\ is_Some (r_Bank_Adjustment r))
         (omap (completed_result futures) completed).
Proof.
  apply Forall_forall. intros r (i & _ & Hr)%list_elem_of_omap.
  apply completed_result_Some in Hr as (demand & date & block & _ & Hr).
  apply process_block_success in Hr
    as (mp & mc & md & gc & am & ac & ad & _ & _ & _ & _
        & _ & _ & _ & _ & _ & _ & _ & _ & -> & -> & _).
  split; by eexists.
Qed.

Lemma submissions_empty_range rows start_block end_block :
  (end_block < start_block)%Z ->
  submissions rows start_block end_block = inr [].
Proof.
  intros Hlt. assert (range start_block (end_block + 1) = []) as Hrange.
  { unfold range. by replace (Z.to_nat (end_block + 1 - start_block)) with 0%nat by lia. }
  induction rows as [|row rows IH]; simpl; [done|].
  by rewrite Hrange, IH.
Qed.

(** X9.  [run_normal] never produces an empty report.  It raises [KeyError]
    or returns a report with at least one row and at most one row per
    completed future; it raises when no block succeeds, and so for an empty
    date range and for an empty block range. *)
Theorem report_is_never_empty
    (start_date end_date : Date) (start_block end_block : Z) (completed : list nat) :
  (run_normal start_date end_date start_block end_block completed = inl KeyError \/
   exists x report,
     run_normal start_date end_date start_block end_block completed
     = inr (x :: report) /\
     (length (x :: report) <= length completed)%nat) /\
  ((forall futures i,
      submissions (in_dates start_date end_date) start_block end_block = inr futures ->
      i ∈ completed -> completed_result futures i = None) ->
   run_normal start_date end_date start_block end_block completed = inl KeyError) /\
  ((end_date < start_date)%Z \/ (end_block < start_block)%Z ->
   run_normal start_date end_date start_block end_block completed = inl KeyError).
Proof.
  assert (Hnone : forall futures,
            submissions (in_dates start_date end_date) start_block end_block
            = inr futures ->
            (forall i, i ∈ completed -> completed_result futures i = None) ->
            run_normal start_date end_date start_block end_block completed
            = inl KeyError).
  { intros futures Hsub Hall. unfold run_normal. rewrite Hsub, collect_completed.
    assert (omap (completed_result futures) completed = []) as ->; [|done].
    clear Hsub. induction completed as [|i l IH]; [done|]. simpl.
    rewrite (Hall i) by (by left). apply IH. intros j Hj. apply Hall. by right. }
  split; [|split].
  - unfold run_normal.
    destruct (submissions _ start_block end_block) as [e|futures] eqn:Hsub.
    { left. by rewrite (submissions_inl _ _ _ _ _ Hsub). }
    rewrite collect_completed.
    destruct (report_rows_total _ (collected_results_have_adjustments futures completed))
      as (report & Hreport & Hlen).
    pose proof (length_omap_le (completed_result futures) completed) as Hle.
    destruct (omap (completed_result futures) completed) as [|r results];
      [by left|].
    right. rewrite Hreport. destruct report as [|x report]; [discriminate|].
    exists x, report. split; [done|]. rewrite Hlen. exact Hle.
  - intros Hall.
    destruct (submissions (in_dates start_date end_date) start_block end_block)
      as [e|futures] eqn:Hsub.
    { unfold run_normal. rewrite Hsub. by rewrite (submissions_inl _ _ _ _ _ Hsub). }
    apply (Hnone futures eq_refl). intros i. by apply (Hall futures i eq_refl).
  - intros [Hdates|Hblocks].
    + assert (in_dates start_date end_date = []) as Hnil.
      { clear -Hdates. induction (rows df_demand) as [|row l IH]; [done|].
        rewrite filter_cons, IH. case_decide; [lia | done]. }
      apply (Hnone []); [by rewrite Hnil|].
      intros i _. unfold completed_result. by rewrite lookup_nil.
    + apply (Hnone []); [by apply submissions_empty_range|].
      intros i _. unfold completed_result. by rewrite lookup_nil.
Qed.

(** X10.  Every row of the report is a block that was asked for.  When
    the blocks of the range are integer-labelled columns of the demand
    table, the date of a row of the report lies within the date range and
    is the date of a row of the demand table, its block lies within the
    block range, and its [Demand] cell is the net demand computed from that
    row's demand for the block. *)
Theorem report_rows_are_requested_blocks
    (start_date end_date : Date) (start_block end_block : Z) (completed : list nat)
    (report : list ReportRow) (x : ReportRow) :
  (forall block, (start_block <= block <= end_block)%Z ->
                 has_column (LInt block) df_demand = true) ->
  run_normal start_date end_date start_block end_block completed = inr report ->
  x ∈ report ->
  (start_date <= c_Date x <= end_date)%Z /\
  (start_block <= c_Block x <= end_block)%Z /\
  exists row,
    row ∈ rows df_demand /\ row_date row = c_Date x /\
    c_Demand x = net_demand (c_Date x) (c_Block x) (cell row (LInt (c_Block x))).
Proof.
  intros _. unfold run_normal.
  destruct (submissions _ start_block end_block) as [|futures] eqn:Hsub;
    [discriminate|].
  rewrite collect_completed.
  apply submissions_inr in Hsub as [-> _].
  set (futures := in_dates start_date end_date ≫= _) in *.
  destruct (omap (completed_result futures) completed) as [|r0 results] eqn:Hres;
    [discriminate|].
  rewrite <- Hres. intros Hreport%report_rows_Forall2 Hx.
  apply list_elem_of_lookup in Hx as [k Hk].
  destruct (Forall2_lookup_r _ _ _ _ _ Hreport Hk) as (r & Hr%list_elem_of_lookup_2 & Hrx).
  apply list_elem_of_omap in Hr as (i & _ & Hr).
  apply completed_result_Some in Hr as (demand & date & block & Hjob & Hr).
  apply list_elem_of_lookup_2 in Hjob. unfold futures in Hjob.
  apply list_elem_of_bind in Hjob as (row & Hjob & Hrow).
  apply list_elem_of_fmap in Hjob as (block' & [= -> -> ->] & Hblock).
  apply elem_of_range in Hblock.
  apply process_block_success in Hr
    as (mp & mc & md & gc & am & ac & ad & _ & _ & _ & _
        & Hdate & Hblk & Hdemand & _).
  apply report_row_inr in Hrx as (-> & -> & ->).
  cbv zeta in Hdemand. rewrite Hdate, Hblk, Hdemand.
  apply list_elem_of_filter in Hrow as [Hdates Hrow].
  split; [lia|]. split; [lia|]. by exists row.
Qed.

End Reports.

(** ** A program without an optimal solution *)

Section Fallback.

Variable preloaded_generators : gmap string DataFrame.
Variables df_grid_cost df_oa df_bank : DataFrame.
Variable solver : Solver.

Local Abbreviation calculate_must_run_power :=
  (calculate_must_run_power preloaded_generators).
Local Abbreviation set_upBounds := (set_upBounds preloaded_generators).
Local Abbreviation energy_bound := (energy_bound preloaded_generators).
Local Abbreviation optimize_available_generators :=
  (optimize_available_generators preloaded_generators solver).
Local Abbreviation process_block :=
  (process_block preloaded_generators df_grid_cost df_oa df_bank solver).
Local Abbreviation net_demand := (net_demand df_oa df_bank).
Local Abbreviation available gens :=
  (filter (fun g => Type_of_Plant g = AVAILABLE_TYPE) gens).

(** X12.  A program that the solver does not solve to optimality costs the
    block nothing but a log line: the block still has a result, in which
    the available generators deliver nothing and have no detail lines, and
    the whole demand left by the must-run generators is bought from the
    grid at the grid rate. *)
Theorem no_solution_goes_to_grid
    (demand : Q) (date : Date) (block : Z) (gens : list Generator) (r : BlockResult) :
  outcome (process_block demand date block gens) = inr (Some r) ->
  LogError NoFeasibleSolution ∈ events (process_block demand date block gens) ->
  r_Available_Generators_Used r = 0 /\
  r_Available_Generator_Details r = [] /\
  r_Grid_Consumption r == r_Demand r - r_Must_Run_Generators_Used r /\
  r_Total_Cost r
    == sum_Q (detail_inr <$> r_Must_Run_Generator_Details r)
       + r_Grid_Consumption r * r_Grid_Rate r.
Proof.
  intros Hr Hlog.
  destruct (process_block_status _ _ _ _ _ _ _ _ _ _ Hr)
    as (mp & mc & md & vars' & status & sol & Hmr & _ & _ & _ & Hev
        & -> & -> & -> & Hres & _).
  rewrite Hev in Hlog.
  destruct (decide (status = LpStatusOptimal)) as [->|Hstatus];
    [absent_event Hlog|].
  destruct (Hres Hstatus) as (-> & -> & Hgrid & Hcost).
  split; [done|]. split; [done|]. split; [done|].
  apply must_run_loop_result in Hmr as (ds & -> & _ & -> & _). simpl.
  fold (sum_Q (detail_inr <$> ds)) in *. rewrite Hcost, Hgrid. lra.
Qed.

(** X13.  The answer of the solver is taken as it is.  When the solver
    has reported an optimal solution, the log holds the solver call and
    nothing else, every available generator has a detail line with the
    value reported for its variable, whatever the bounds of the variable
    are, and the energy of the available generators is the sum of these
    values; the grid supplies what that sum leaves of the remaining demand,
    and nothing when the sum reaches or exceeds it.  So a value reported
    below 0, as a solver may report it for a variable whose upper bound is
    a negative availability, is dispatched as it is and is added to the
    grid energy. *)
Theorem reported_values_are_dispatched
    (demand : Q) (date : Date) (block : Z) (gens : list Generator) (r : BlockResult) :
  outcome (process_block demand date block gens) = inr (Some r) ->
  LogError NoFeasibleSolution ∉ events (process_block demand date block gens) ->
  exists p v sol,
    events (process_block demand date block gens) = [Solve p v] /\
    solver p v = Some (LpStatusOptimal, sol) /\
    Forall2 (fun g d => detail_code d = Code g /\
                        sol !! name g = Some (detail_kwh d) /\
                        detail_inr d = detail_kwh d * variable_cost g)
            (available gens) (r_Available_Generator_Details r) /\
    r_Available_Generators_Used r
      = sum_Q (detail_kwh <$> r_Available_Generator_Details r) /\
    (r_Available_Generators_Used r < r_Demand r - r_Must_Run_Generators_Used r ->
     r_Grid_Consumption r
       == r_Demand r - r_Must_Run_Generators_Used r
          - r_Available_Generators_Used r) /\
    (r_Demand r - r_Must_Run_Generators_Used r <= r_Available_Generators_Used r ->
     r_Grid_Consumption r == 0).
Proof.
  intros Hr Hlog.
  destruct (process_block_status _ _ _ _ _ _ _ _ _ _ Hr)
    as (mp & mc & md & vars' & status & sol & _ & _ & _ & Hsolve & Hev
        & -> & -> & _ & _ & Hopt).
  rewrite Hev in Hlog |- *.
  destruct (decide (status = LpStatusOptimal)) as [->|Hstatus];
    [|destruct Hlog; right; by left].
  destruct (Hopt eq_refl) as (vs & Hvs & -> & -> & ->).
  assert (Hlen : length vs = length (available gens))
    by (symmetry; by eapply Forall2_length).
  eexists _, vars', sol. split; [reflexivity|]. split; [exact Hsolve|].
  split; [|split; [by rewrite detail_kwh_zip_with|]].
  - clear -Hvs. induction Hvs as [|g v gs vs Hv _ IH]; simpl; constructor; auto.
  - split; intros Hcmp.
    + apply Qltb_lt in Hcmp. rewrite Hcmp. lra.
    + apply Qltb_ge in Hcmp. by rewrite Hcmp.
Qed.

End Fallback.

(** ** One table, four readers *)

(** X14.  The lookups of the rate table and of the two adjustment tables
    read the same cell.  On a table where [load_grid_cost] returns a value,
    each adjuster adjusts by that value; where it raises, it raises
    [ValueError] and each adjuster leaves the demand as it is.  The lookup
    of a generator series is stricter: it returns a value exactly when the
    block is an integer-labelled column and [load_grid_cost] returns that
    value, it raises [KeyError] for a block under a string header, whatever
    the rows are, and [IndexError] when the column is there and no row has
    the date. *)
Theorem table_lookups_agree (date : Date) (block : Z) (df : DataFrame) :
  (forall rate, outcome (load_grid_cost date block df) = inr rate ->
    forall d,
      adjust_demand_with_open_access date block d df
      = ((d - rate) * DEMAND_CONVERSION_FACTOR, rate) /\
      adjust_demand_with_bank date block d df
      = (d + rate * DEMAND_CONVERSION_FACTOR, rate)) /\
  (forall e, outcome (load_grid_cost date block df) = inl e ->
    e = ValueError /\
    forall d,
      adjust_demand_with_open_access date block d df
      = (d * DEMAND_CONVERSION_FACTOR, 0) /\
      adjust_demand_with_bank date block d df = (d, 0)) /\
  (forall pw, outcome (loc_date_block df date block) = inr pw <->
    has_column (LInt block) df = true /\
    outcome (load_grid_cost date block df) = inr pw) /\
  (forall e, outcome (loc_date_block df date block) = inl e <->
    (e = KeyError /\ has_column (LInt block) df = false) \/
    (e = IndexError /\ has_column (LInt block) df = true /\
     filter_date date df = [])).
Proof.
  split; [|split; [|split]].
  - intros rate Hrate d.
    rewrite adjust_demand_with_open_access_entry, adjust_demand_with_bank_entry.
    rewrite load_grid_cost_entry in Hrate.
    destruct (lookup_entry date block df); [|discriminate].
    by injection Hrate as ->.
  - intros e He. rewrite load_grid_cost_entry in He.
    destruct (lookup_entry date block df) eqn:Hentry; [discriminate|].
    injection He as <-. split; [done|]. intros d.
    by rewrite adjust_demand_with_open_access_entry,
      adjust_demand_with_bank_entry, Hentry.
  - intros pw. rewrite load_grid_cost_entry.
    unfold loc_date_block, lookup_entry.
    destruct (has_column (LInt block) df); [|split; [discriminate | by intros [? _]]].
    destruct (filter_date date df) as [|row rest];
      [split; [discriminate | by intros [_ ?]]|].
    split; [by intros [= <-] | by intros [_ [= <-]]].
  - intros e. unfold loc_date_block.
    destruct (has_column (LInt block) df).
    + destruct (filter_date date df) as [|row rest]; simpl.
      * split; [intros [= <-]; by right | by intros [[-> ?]|[-> _]]].
      * split; [discriminate | by intros [[_ ?]|(_ & _ & ?)]].
    + split; [intros [= <-]; by left | by intros [[-> _]|(_ & ? & _)]].
Qed.

Section Adjustments.

Variable preloaded_generators : gmap string DataFrame.
Variables df_grid_cost df_oa df_bank : DataFrame.
Variable solver : Solver.

Local Abbreviation process_block :=
  (process_block preloaded_generators df_grid_cost df_oa df_bank solver).

(** X15.  What a result reports of the adjustments: [OA Used] and
    [Bank Adjustment] are the entries of the two tables for (date, block),
    in MW, and 0 where a table has no entry; [Demand] is the demand less
    the open access plus the bank adjustment, in kWh. *)
Theorem adjustments_in_result
    (demand : Q) (date : Date) (block : Z) (gens : list Generator) (r : BlockResult) :
  outcome (process_block demand date block gens) = inr (Some r) ->
  r_OA_Used r = Some (default 0 (lookup_entry date block df_oa)) /\
  r_Bank_Adjustment r = Some (default 0 (lookup_entry date block df_bank)) /\
  r_Demand r
    == (demand - default 0 (lookup_entry date block df_oa)
        + default 0 (lookup_entry date block df_bank)) * DEMAND_CONVERSION_FACTOR.
Proof.
  intros Hr.
  apply process_block_success in Hr
    as (mp & mc & md & gc & am & ac & ad & _ & _ & _ & _
        & _ & _ & -> & _ & _ & _ & _ & _ & -> & -> & _).
  unfold net_demand.
  rewrite adjust_demand_with_open_access_entry.
  destruct (lookup_entry date block df_oa) as [oa|]; simpl;
    rewrite adjust_demand_with_bank_entry;
    destruct (lookup_entry date block df_bank) as [bank|]; simpl;
    (split; [done|]); (split; [done|]); lra.
Qed.

End Adjustments.

(** ** Loading the generator series *)

Lemma prefix_append (old s : string) :
  String.prefix old s = true <-> exists rest, s = old +:+ rest.
Proof.
  revert s. induction old as [|a old IH]; intros s.
  - split; [intros _; by exists s | by destruct s].
  - destruct s as [|b s]; simpl; [split; [done | by intros [rest [=]]]|].
    destruct (Ascii.ascii_dec a b) as [->|Hne].
    + rewrite IH. split; intros [rest Hrest]; exists rest;
        [by rewrite Hrest | by injection Hrest].
    + split; [done|]. intros [rest [= ? _]]. done.
Qed.

Lemma append_nil (s : string) : "" +:+ s = s.
Proof. reflexivity. Qed.

Lemma append_cons (c : Ascii.ascii) (s t : string) :
  String c s +:+ t = String c (s +:+ t).
Proof. reflexivity. Qed.

Lemma endswith_unfold (s suffix : string) :
  endswith s suffix
  = String.eqb s suffix
    || match s with EmptyString => false | String _ s' => endswith s' suffix end.
Proof. by destruct s. Qed.

Lemma endswith_append (s suffix : string) : endswith (s +:+ suffix) suffix = true.
Proof.
  induction s as [|c s IH].
  - by rewrite append_nil, endswith_unfold, String.eqb_refl.
  - rewrite append_cons, endswith_unfold, IH. apply orb_true_r.
Qed.

Lemma endswith_spec (s suffix : string) :
  endswith s suffix = true <-> exists before, s = before +:+ suffix.
Proof.
  split.
  - induction s as [|c s IH]; rewrite endswith_unfold.
    + rewrite orb_false_r. intros ->%String.eqb_eq. by exists "".
    + intros [->%String.eqb_eq|Hs]%orb_true_iff; [by exists ""|].
      destruct (IH Hs) as [before ->]. by exists (String c before).
  - intros [before ->]. apply endswith_append.
Qed.

Lemma replace_from_cons (old new : string) (c : Ascii.ascii) (s : string) :
  replace_from old new 0 (String c s)
  = if String.prefix old (String c s)
    then new +:+ replace_from old new (String.length old - 1) s
    else String c (replace_from old new 0 s).
Proof. reflexivity. Qed.

Lemma replace_from_no_occurrence (old new s : string) :
  ~ occurs_in old s -> replace_from old new 0 s = s.
Proof.
  induction s as [|c s IH]; intros Hno; [done|].
  rewrite replace_from_cons.
  destruct (String.prefix old (String c s)) eqn:Hpre.
  - destruct Hno. apply prefix_append in Hpre as [rest ->]. by exists "", rest.
  - f_equal. apply IH. intros (before & after & ->).
    destruct Hno. by exists (String c before), after.
Qed.

(** An occurrence of [".xlsx"] that begins in [s] ends in [s]: the suffix
    appended to a file name takes part in no other occurrence. *)
Lemma prefix_xlsx_append (s : string) :
  s <> "" ->
  String.prefix ".xlsx" (s +:+ ".xlsx") = String.prefix ".xlsx" s.
Proof.
  intros Hs.
  destruct (String.prefix ".xlsx" s) eqn:Hpre.
  - apply prefix_append in Hpre as [rest ->]. apply prefix_append.
    exists (rest +:+ ".xlsx"). reflexivity.
  - apply not_true_is_false. intros [rest Hrest]%prefix_append.
    apply (eq_true_false_abs _ eq_refl). rewrite <- Hpre. clear Hpre.
    destruct s as [|c1 [|c2 [|c3 [|c4 [|c5 s]]]]]; [done|..];
      rewrite ?append_cons, ?append_nil in Hrest; try discriminate Hrest.
    injection Hrest as -> -> -> -> -> _.
    symmetry. apply prefix_append. by exists s.
Qed.

Lemma replace_from_xlsx_append (s : string) (skip : nat) :
  (skip <= String.length s)%nat ->
  replace_from ".xlsx" "" skip (s +:+ ".xlsx") = replace_from ".xlsx" "" skip s.
Proof.
  revert skip. induction s as [|c s IH]; intros skip Hskip.
  - simpl in Hskip. by replace skip with 0%nat by lia.
  - rewrite append_cons. destruct skip as [|k].
    + rewrite !replace_from_cons, <- append_cons, prefix_xlsx_append by done.
      destruct (String.prefix ".xlsx" (String c s)) eqn:Hpre.
      * rewrite IH; [done|].
        apply prefix_append in Hpre as [rest Hrest].
        apply (f_equal String.length) in Hrest. simpl in Hrest. simpl. lia.
      * by rewrite IH by lia.
    + simpl. apply IH. simpl in Hskip. lia.
Qed.

Lemma replace_xlsx_append (code : string) :
  ~ occurs_in ".xlsx" code ->
  replace (code +:+ ".xlsx") ".xlsx" "" = code.
Proof.
  intros Hno. unfold replace.
  rewrite replace_from_xlsx_append by lia.
  by apply replace_from_no_occurrence.
Qed.

Lemma length_append (s t : string) :
  String.length (s +:+ t) = (String.length s + String.length t)%nat.
Proof.
  induction s as [|c s IH]; [done|]. rewrite append_cons. simpl. by rewrite IH.
Qed.

Lemma occurs_in_length (old s : string) :
  occurs_in old s -> (String.length old <= String.length s)%nat.
Proof. intros (before & after & ->). rewrite !length_append. lia. Qed.

Section PreloadFacts.

Variable read_excel : string -> Exn + Sheet.

Local Abbreviation preload_loop := (preload_loop read_excel).
Local Abbreviation preload_generator_data := (preload_generator_data read_excel).

Lemma preload_loop_inr filenames logged data logged' data' :
  preload_loop filenames logged data = inr (logged', data') ->
  (forall code df, data' !! code = Some df ->
     data !! code = Some df \/
     exists filename,
       filename ∈ filenames /\ endswith filename ".xlsx" = true /\
       replace filename ".xlsx" "" = code /\
       read_excel filename = inr (WithDate df)) /\
  (forall code, is_Some (data !! code) -> is_Some (data' !! code)) /\
  (forall filename df,
     filename ∈ filenames -> endswith filename ".xlsx" = true ->
     read_excel filename = inr (WithDate df) ->
     is_Some (data' !! replace filename ".xlsx" "")) /\
  logged'
  = logged ++ filter (fun filename => endswith filename ".xlsx"
                                      && without_date (read_excel filename))
                     filenames /\
  (forall filename, filename ∈ filenames -> endswith filename ".xlsx" = true ->
     exists sheet, read_excel filename = inr sheet).
Proof.
  revert logged data.
  induction filenames as [|f rest IH]; intros logged data; simpl.
  - intros [= <- <-]. split; [by left|]. split; [done|].
    split; [by intros ? ? ?%elem_of_nil|]. split; [by rewrite app_nil_r|].
    by intros ? ?%elem_of_nil.
  - rewrite filter_cons.
    destruct (endswith f ".xlsx") eqn:Hf; simpl.
    + destruct (read_excel f) as [e|[df|]] eqn:Hread; [discriminate| |]; simpl.
      * intros (Hfrom & Hkeep & Hfile & -> & Hok)%IH.
        split; [|split; [|split; [|split]]].
        -- intros code df' [Hdata|(f' & ? & ? & ? & ?)]%Hfrom.
           ++ destruct (decide (replace f ".xlsx" "" = code)) as [<-|Hne].
              ** rewrite lookup_insert_eq in Hdata. injection Hdata as <-.
                 right. exists f. split; [by left | done].
              ** rewrite lookup_insert_ne in Hdata by done. by left.
           ++ right. exists f'. split; [by right | done].
        -- intros code Hcode. apply Hkeep.
           destruct (decide (replace f ".xlsx" "" = code)) as [<-|Hne];
             [by rewrite lookup_insert_eq | by rewrite lookup_insert_ne].
        -- intros f' df' [->|Hin]%elem_of_cons Hf' Hread'.
           ++ apply Hkeep. by rewrite lookup_insert_eq.
           ++ by eapply Hfile.
        -- done.
        -- intros f' [->|Hin]%elem_of_cons Hf'; [by eexists | by apply Hok].
      * intros (Hfrom & Hkeep & Hfile & -> & Hok)%IH.
        split; [|split; [|split; [|split]]].
        -- intros code df' [Hdata|(f' & ? & ? & ? & ?)]%Hfrom; [by left|].
           right. exists f'. split; [by right | done].
        -- done.
        -- intros f' df' [->|Hin]%elem_of_cons Hf' Hread'; [congruence|].
           by eapply Hfile.
        -- by rewrite <- app_assoc.
        -- intros f' [->|Hin]%elem_of_cons Hf'; [by eexists | by apply Hok].
    + intros (Hfrom & Hkeep & Hfile & -> & Hok)%IH.
      split; [|split; [|split; [|split]]].
      * intros code df' [Hdata|(f' & ? & ? & ? & ?)]%Hfrom; [by left|].
        right. exists f'. split; [by right | done].
      * done.
      * intros f' df' [->|Hin]%elem_of_cons Hf' Hread'; [congruence|].
        by eapply Hfile.
      * done.
      * intros f' [->|Hin]%elem_of_cons Hf'; [congruence | by apply Hok].
Qed.

Lemma preload_loop_inl filenames logged data e :
  preload_loop filenames logged data = inl e ->
  exists filename,
    filename ∈ filenames /\ endswith filename ".xlsx" = true /\
    read_excel filename = inl e.
Proof.
  revert logged data.
  induction filenames as [|f rest IH]; intros logged data; simpl; [discriminate|].
  destruct (endswith f ".xlsx") eqn:Hf.
  - destruct (read_excel f) as [e'|[df|]] eqn:Hread.
    + intros [= <-]. exists f. split; [by left | done].
    + intros (f' & ? & ?)%IH. exists f'. split; [by right | done].
    + intros (f' & ? & ?)%IH. exists f'. split; [by right | done].
  - intros (f' & ? & ?)%IH. exists f'. split; [by right | done].
Qed.

(** X16.  The series that [preload_generator_data] returns come from the
    spreadsheets of the directory and from nothing else.  Every entry is
    the sheet of a listed file whose name ends in [.xlsx] and which has a
    [Date] column, under the file name with every [.xlsx] taken out; every
    such file leaves an entry under that code; the files logged are the
    [.xlsx] files without a [Date] column, in listing order; and the
    function raises only what reading one of the [.xlsx] files raises. *)
Theorem preloaded_series_come_from_files (listdir : list string) :
  (forall logged generator_data,
     preload_generator_data listdir = inr (logged, generator_data) ->
     (forall code df, generator_data !! code = Some df ->
        exists filename,
          filename ∈ listdir /\ endswith filename ".xlsx" = true /\
          replace filename ".xlsx" "" = code /\
          read_excel filename = inr (WithDate df)) /\
     (forall filename df,
        filename ∈ listdir -> endswith filename ".xlsx" = true ->
        read_excel filename = inr (WithDate df) ->
        is_Some (generator_data !! replace filename ".xlsx" "")) /\
     logged = filter (fun filename => endswith filename ".xlsx"
                                      && without_date (read_excel filename))
                     listdir) /\
  (forall e, preload_generator_data listdir = inl e ->
     exists filename,
       filename ∈ listdir /\ endswith filename ".xlsx" = true /\
       read_excel filename = inl e).
Proof.
  split; [|intros e; apply preload_loop_inl].
  intros logged generator_data (Hfrom & _ & Hfile & -> & _)%preload_loop_inr.
  split; [|split; [exact Hfile | done]].
  intros code df [Hempty|Hfile']%Hfrom; [|done].
  by rewrite lookup_empty in Hempty.
Qed.

(** X17.  The series of a generator is read from the file named by its
    code: for a code in which [.xlsx] does not occur, the file
    [code.xlsx] passes the suffix test and is stored under [code]; if it is
    listed and has a [Date] column, the generator has a series, and the
    series is that file's sheet when no other listed file yields the
    code. *)
Theorem series_file_of_generator
    (listdir logged : list string) (generator_data : gmap string DataFrame)
    (code : string) (df : DataFrame) :
  ~ occurs_in ".xlsx" code ->
  preload_generator_data listdir = inr (logged, generator_data) ->
  code +:+ ".xlsx" ∈ listdir ->
  read_excel (code +:+ ".xlsx") = inr (WithDate df) ->
  endswith (code +:+ ".xlsx") ".xlsx" = true /\
  replace (code +:+ ".xlsx") ".xlsx" "" = code /\
  is_Some (generator_data !! code) /\
  ((forall filename,
      filename ∈ listdir -> endswith filename ".xlsx" = true ->
      replace filename ".xlsx" "" = code -> filename = code +:+ ".xlsx") ->
   generator_data !! code = Some df).
Proof.
  intros Hno (Hfrom & _ & Hfile & _)%preload_loop_inr Hin Hread.
  pose proof (endswith_append code ".xlsx") as Hends.
  pose proof (replace_xlsx_append code Hno) as Hcode.
  split; [done|]. split; [done|].
  pose proof (Hfile _ _ Hin Hends Hread) as Hsome. rewrite Hcode in Hsome.
  split; [done|].
  intros Honly. destruct Hsome as [df' Hdf'].
  destruct (Hfrom _ _ Hdf') as [Hempty|(f & Hf & Hfx & Hfc & Hfr)];
    [by rewrite lookup_empty in Hempty|].
  rewrite (Honly f Hf Hfx Hfc) in Hfr. congruence.
Qed.

End PreloadFacts.

(** ** Sample runs of the further properties *)

Lemma reference_solver_responsive : responsive reference_solver.
Proof.
  intros prob vars. unfold reference_solver.
  destruct (constraints prob) as [|[lhs rhs] [|c cs]]; [by eexists| |by eexists].
  destruct (bool_decide _); [|by eexists].
  destruct (forallb _ _); [destruct (Qle_bool 0 rhs); by eexists|].
  destruct (existsb _ _); by eexists.
Qed.

Module FurtherRuns.
Import Example1 Example2 Example3.

Lemma block_failure_is_logged_witness :
  outcome run_no_rate = inr None /\
  exists e, last (events run_no_rate) = Some (LogError (ErrorProcessingBlock 1 D e)).
Proof.
  assert (Hnone : outcome run_no_rate = inr None) by (vm_compute; reflexivity).
  split; [exact Hnone|].
  apply (proj1 (proj2 (block_failure_is_logged preloaded_ample empty_table
                         empty_table empty_table reference_solver 1 D 1 [A; B]))).
  exact Hnone.
Defined.

Lemma must_run_totals_witness :
  outcome (calculate_must_run_power preloaded [C; A; B] D 1)
    = inr (1000 # 40, 2000 # 40,
           [{| detail_code := "A"; detail_kwh := 1000 # 40;
               detail_inr := 2000 # 40 |}]) /\
  (1000 # 40)
  = sum_Q (energy_bound preloaded D 1
             <$> filter (fun g => is_Some (preloaded !! Code g))
                   (filter (fun g => Type_of_Plant g = MUST_RUN_TYPE) [C; A; B])).
Proof.
  assert (H : outcome (calculate_must_run_power preloaded [C; A; B] D 1)
              = inr (1000 # 40, 2000 # 40,
                     [{| detail_code := "A"; detail_kwh := 1000 # 40;
                         detail_inr := 2000 # 40 |}]))
    by (vm_compute; reflexivity).
  split; [exact H|].
  apply (must_run_totals preloaded [C; A; B] D 1 _ _ _ H).
Defined.

Lemma totals_match_details_witness :
  outcome run = inr (Some result) /\
  r_Total_Cost result
    == sum_Q (detail_inr <$> r_Must_Run_Generator_Details result)
       + sum_Q (detail_inr <$> r_Available_Generator_Details result)
       + r_Grid_Consumption result * r_Grid_Rate result.
Proof.
  assert (Hrun : outcome run = inr (Some result)) by (vm_compute; reflexivity).
  split; [exact Hrun|].
  apply (totals_match_details preloaded grid empty_table empty_table
           reference_solver 100 D 1 [A; B] result Hrun).
Defined.

Lemma block_succeeds_iff_witness :
  sound reference_solver /\ responsive reference_solver /\
  (exists r, outcome run = inr (Some r)) /\
  is_Some (lookup_entry D 1 grid) /\
  sum_Q (energy_bound preloaded D 1
           <$> filter (fun g => Type_of_Plant g = MUST_RUN_TYPE) [A; B])
    < net_demand empty_table empty_table D 1 100.
Proof.
  assert (Hrun : exists r, outcome run = inr (Some r))
    by (exists result; vm_compute; reflexivity).
  split; [exact reference_solver_sound|].
  split; [exact reference_solver_responsive|].
  split; [exact Hrun|].
  apply (proj1 (block_succeeds_iff preloaded grid empty_table empty_table
                  reference_solver 100 D 1 [A; B]
                  reference_solver_sound reference_solver_responsive)) in Hrun.
  exact (proj2 (proj2 Hrun)).
Defined.

Lemma solver_call_witness :
  exists p v,
    Solve p v ∈ events run /\
    events run = [Solve p v] /\
    objective p = [name B] /\
    (forall g, g ∈ [A; B] -> exists var, v !! name g = Some var /\ lowBound var = 0).
Proof.
  assert (Hev : exists p v, events run = [Solve p v]).
  { destruct (events run) as [|[m|p v] [|ev l]] eqn:Hev;
      try (vm_compute in Hev; discriminate Hev).
    by exists p, v. }
  destruct Hev as (p & v & Hev).
  assert (Hin : Solve p v ∈ events run) by (rewrite Hev; by left).
  exists p, v. split; [exact Hin|]. split; [exact Hev|].
  destruct (solver_call preloaded grid empty_table empty_table reference_solver
              100 D 1 [A; B] p v Hin)
    as (_ & (mp & mc & md & _ & _ & ->) & Hlow & _).
  split; [reflexivity | exact Hlow].
Defined.

Lemma result_is_nonnegative_witness :
  outcome run = inr (Some result) /\
  0 < r_Demand result /\ 0 <= r_Grid_Consumption result /\ 0 <= r_Total_Cost result.
Proof.
  assert (Hrun : outcome run = inr (Some result)) by (vm_compute; reflexivity).
  split; [exact Hrun|].
  destruct (result_is_nonnegative preloaded grid empty_table empty_table
              reference_solver 100 D 1 [A; B] result reference_solver_sound)
    as (H1 & _ & _ & H2 & _ & H3).
  - intros g Hg. apply elem_of_cons in Hg as [->|Hg]; [vm_compute; discriminate|].
    apply list_elem_of_singleton in Hg as ->. vm_compute. discriminate.
  - intros g [_ Hg]%list_elem_of_filter.
    apply elem_of_cons in Hg as [->|Hg]; [vm_compute; discriminate|].
    apply list_elem_of_singleton in Hg as ->. vm_compute. discriminate.
  - intros rate Hrate. vm_compute in Hrate. injection Hrate as <-.
    vm_compute. discriminate.
  - exact Hrun.
  - split; [exact H1|]. split; [exact H2 | exact H3].
Defined.

Lemma dispatch_is_maximal_witness :
  sound reference_solver /\ maximising reference_solver /\
  outcome run = inr (Some result) /\
  r_Available_Generators_Used result
    == sum_Q (energy_bound preloaded D 1
                <$> filter (fun g => Type_of_Plant g = AVAILABLE_TYPE) [A; B]) /\
  r_Grid_Consumption result
    == net_demand empty_table empty_table D 1 100
       - r_Must_Run_Generators_Used result
       - sum_Q (energy_bound preloaded D 1
                  <$> filter (fun g => Type_of_Plant g = AVAILABLE_TYPE) [A; B]).
Proof.
  assert (Hrun : outcome run = inr (Some result)) by (vm_compute; reflexivity).
  split; [exact reference_solver_sound|].
  split; [exact reference_solver_maximising|].
  split; [exact Hrun|].
  apply (dispatch_is_maximal preloaded grid empty_table empty_table
           reference_solver 100 D 1 [A; B] result
           reference_solver_sound reference_solver_maximising).
  - apply (bool_decide_unpack _). vm_compute. exact I.
  - intros g [_ Hg]%list_elem_of_filter.
    apply elem_of_cons in Hg as [->|Hg]; [vm_compute; discriminate|].
    apply list_elem_of_singleton in Hg as ->. vm_compute. discriminate.
  - exact Hrun.
  - assert (Hev : exists p v, events run = [Solve p v]).
    { destruct (events run) as [|[m|p v] [|ev l]] eqn:Hev;
        try (vm_compute in Hev; discriminate Hev).
      by exists p, v. }
    destruct Hev as (p & v & Hev). fold run. rewrite Hev.
    intros Hin. absent_event Hin.
  - vm_compute. discriminate.
Defined.

Lemma submissions_are_the_grid_witness :
  submissions demand (rows demand) 1 2 = inr [(100, D, 1%Z); (100, D, 2%Z)] /\
  range 1 (2 + 1) !! 1%nat = Some 2%Z.
Proof.
  destruct (submissions_are_the_grid demand (rows demand) 1 2) as (Hsub & Hrange & _).
  - intros block Hblock.
    assert (block = 1 \/ block = 2)%Z as [->| ->] by lia; reflexivity.
  - split; [exact Hsub|]. apply (Hrange 1%nat). lia.
Defined.

Lemma report_is_never_empty_witness :
  run_normal preloaded grid empty_table empty_table reference_solver demand [A; B]
    D D 2 1 [0%nat] = inl KeyError /\
  run_normal preloaded grid empty_table empty_table reference_solver demand [A; B]
    (D + 1)%Z D 1 2 [0%nat] = inl KeyError.
Proof.
  split.
  - apply (proj2 (proj2 (report_is_never_empty preloaded grid empty_table
                           empty_table reference_solver demand [A; B]
                           D D 2 1 [0%nat]))).
    right. lia.
  - apply (proj2 (proj2 (report_is_never_empty preloaded grid empty_table
                           empty_table reference_solver demand [A; B]
                           (D + 1)%Z D 1 2 [0%nat]))).
    left. lia.
Defined.

Lemma report_rows_are_requested_blocks_witness :
  (forall block, (1 <= block <= 2)%Z -> has_column (LInt block) demand = true) /\
  run_normal preloaded grid empty_table empty_table reference_solver demand [A; B]
    D D 1 2 [1%nat; 0%nat] = inr report_10 /\
  Forall (fun x => (1 <= c_Block x <= 2)%Z /\ c_Date x = D) report_10.
Proof.
  assert (Hcols : forall block, (1 <= block <= 2)%Z ->
                    has_column (LInt block) demand = true).
  { intros block Hblock.
    assert (block = 1 \/ block = 2)%Z as [->| ->] by lia; reflexivity. }
  assert (Hrun : run_normal preloaded grid empty_table empty_table
                   reference_solver demand [A; B] D D 1 2 [1%nat; 0%nat]
                 = inr report_10) by (vm_compute; reflexivity).
  split; [exact Hcols|]. split; [exact Hrun|].
  apply Forall_forall. intros x Hx.
  destruct (report_rows_are_requested_blocks preloaded grid empty_table
              empty_table reference_solver demand [A; B] D D 1 2 _ _ x
              Hcols Hrun Hx)
    as (Hdate & Hblock & _).
  split; [exact Hblock | lia].
Defined.

Lemma no_solution_goes_to_grid_witness :
  outcome run_not_solved = inr (Some result_not_solved) /\
  LogError NoFeasibleSolution ∈ events run_not_solved /\
  r_Available_Generators_Used result_not_solved = 0 /\
  r_Grid_Consumption result_not_solved == 24975.
Proof.
  assert (Hrun : outcome run_not_solved = inr (Some result_not_solved))
    by (vm_compute; reflexivity).
  assert (Hlog : LogError NoFeasibleSolution ∈ events run_not_solved).
  { assert (Hev : exists ev, events run_not_solved
                              = [ev; LogError NoFeasibleSolution]).
    { destruct (events run_not_solved) as [|ev [|[[| | |]|] [|ev' l]]] eqn:Hev;
        try (vm_compute in Hev; discriminate Hev).
      by exists ev. }
    destruct Hev as [ev ->]. right. by left. }
  split; [exact Hrun|]. split; [exact Hlog|].
  destruct (no_solution_goes_to_grid preloaded grid empty_table
              empty_table idle_solver 100 D 1 [A; B] result_not_solved Hrun Hlog)
    as (H1 & _ & H2 & _).
  split; [exact H1|]. rewrite H2. reflexivity.
Defined.

Lemma reported_values_are_dispatched_witness :
  energy_bound preloaded_negative D 1 B == -250 /\
  outcome run_at_upper_bound = inr (Some result_at_upper_bound) /\
  (LogError NoFeasibleSolution ∉ events run_at_upper_bound) /\
  r_Available_Generators_Used result_at_upper_bound == -250 /\
  r_Grid_Consumption result_at_upper_bound == 25250 /\
  r_Total_Cost result_at_upper_bound == 125500.
Proof.
  assert (Hrun : outcome run_at_upper_bound = inr (Some result_at_upper_bound))
    by (vm_compute; reflexivity).
  assert (Hlog : LogError NoFeasibleSolution ∉ events run_at_upper_bound).
  { assert (Hev : exists p v, events run_at_upper_bound = [Solve p v]).
    { destruct (events run_at_upper_bound) as [|[m|p v] [|ev l]] eqn:Hev;
        try (vm_compute in Hev; discriminate Hev).
      by exists p, v. }
    destruct Hev as (p & v & ->). intros Hin. absent_event Hin. }
  split; [reflexivity|]. split; [exact Hrun|]. split; [exact Hlog|].
  destruct (reported_values_are_dispatched preloaded_negative grid empty_table
              empty_table upper_bound_solver 100 D 1 [B] result_at_upper_bound
              Hrun Hlog)
    as (p & v & sol & _ & _ & _ & _ & Hgrid & _).
  split; [reflexivity|]. split; [|reflexivity].
  rewrite Hgrid; reflexivity.
Defined.

Lemma table_lookups_agree_witness :
  outcome (load_grid_cost D 1 grid) = inr 5 /\
  adjust_demand_with_open_access D 1 100 grid
  = ((100 - 5) * DEMAND_CONVERSION_FACTOR, 5) /\
  outcome (loc_date_block grid D 1) = inl KeyError.
Proof.
  assert (Hrate : outcome (load_grid_cost D 1 grid) = inr 5) by reflexivity.
  destruct (table_lookups_agree D 1 grid) as (Hadj & _ & _ & Hraise).
  split; [exact Hrate|]. split.
  - exact (proj1 (Hadj 5 Hrate 100)).
  - apply Hraise. left. split; reflexivity.
Defined.

Lemma adjustments_in_result_witness :
  outcome (process_block preloaded grid (table 10) empty_table reference_solver
             100 D 1 [A; B])
  = inr (Some (the_result (process_block preloaded grid (table 10) empty_table
                             reference_solver 100 D 1 [A; B]))) /\
  r_OA_Used (the_result (process_block preloaded grid (table 10) empty_table
                           reference_solver 100 D 1 [A; B]))
  = Some (default 0 (lookup_entry D 1 (table 10))) /\
  r_Demand (the_result (process_block preloaded grid (table 10) empty_table
                          reference_solver 100 D 1 [A; B]))
  == (100 - 10 + 0) * DEMAND_CONVERSION_FACTOR.
Proof.
  assert (Hrun : outcome (process_block preloaded grid (table 10) empty_table
                            reference_solver 100 D 1 [A; B])
                 = inr (Some (the_result
                                (process_block preloaded grid (table 10) empty_table
                                   reference_solver 100 D 1 [A; B]))))
    by (vm_compute; reflexivity).
  split; [exact Hrun|].
  destruct (adjustments_in_result preloaded grid (table 10) empty_table
              reference_solver 100 D 1 [A; B] _ Hrun) as (Hoa & _ & Hd).
  split; [exact Hoa | exact Hd].
Defined.

Lemma preloaded_series_come_from_files_witness :
  preload_generator_data read_excel listdir = inr (["old.xlsx"], preloaded) /\
  exists filename,
    filename ∈ listdir /\ endswith filename ".xlsx" = true /\
    replace filename ".xlsx" "" = "A" /\
    read_excel filename = inr (WithDate (series (1 # 10))).
Proof.
  assert (Hload : preload_generator_data read_excel listdir
                  = inr (["old.xlsx"], preloaded)) by (vm_compute; reflexivity).
  split; [exact Hload|].
  destruct (proj1 (preloaded_series_come_from_files read_excel listdir)
              _ _ Hload) as (Hfrom & _).
  apply Hfrom. vm_compute. reflexivity.
Defined.

Lemma series_file_of_generator_witness :
  ~ occurs_in ".xlsx" (Code A) /\
  preload_generator_data read_excel listdir = inr (["old.xlsx"], preloaded) /\
  replace (Code A +:+ ".xlsx") ".xlsx" "" = Code A /\
  preloaded !! Code A = Some (series (1 # 10)).
Proof.
  assert (Hno : ~ occurs_in ".xlsx" (Code A)).
  { intros Hlen%occurs_in_length. simpl in Hlen. lia. }
  assert (Hload : preload_generator_data read_excel listdir
                  = inr (["old.xlsx"], preloaded)) by (vm_compute; reflexivity).
  split; [exact Hno|]. split; [exact Hload|].
  destruct (series_file_of_generator read_excel listdir ["old.xlsx"] preloaded
              (Code A) (series (1 # 10)) Hno Hload)
    as (_ & Hcode & _ & Hdf).
  - by left.
  - reflexivity.
  - split; [exact Hcode|]. apply Hdf.
    intros filename Hin Hends Hrep.
    repeat (apply elem_of_cons in Hin as [->|Hin]; [first
      [ reflexivity
      | vm_compute in Hends; discriminate Hends
      | vm_compute in Hrep; discriminate Hrep ]|]).
    by apply elem_of_nil in Hin.
Defined.

End FurtherRuns.
